(** * Document security pipeline: watermarking, codec and encryption

    A shallow embedding of the client-side document pipeline of the
    registration wizard:

    - [src/lib/security/encryption.ts]: the base64 codec helpers and
      [encryptData];
    - the watermark module (imported as [@/lib/security/watermark]):
      [processDocument], [applyWatermark], [applyPdfWatermark],
      [dataUrlToBlob], [applyInvisibleWatermark], [hashEmail],
      [textToBinary], [arrayBufferToHex];
    - the registration modal: the per-document loop of
      [handleDocumentsSubmit].

    JavaScript strings are sequences of UTF-16 code units, typed arrays are
    lists of bytes, promises that reject and exceptions are the [Throw]
    branch of a result, and the sources of time and randomness are threaded
    as an explicit world. *)

From Stdlib Require Import NArith Strings.Byte String Ascii Lia.
From Stdlib Require QArith.
From stdpp Require Import base list gmap.

Local Open Scope N_scope.
Local Open Scope list_scope.

Ltac Zify.zify_post_hook ::= Z.to_euclidean_division_equations.

(** ** JavaScript strings and errors *)

(** A JavaScript string: its UTF-16 code units. *)
Definition jsstring := list N.

(** An ASCII literal as a JavaScript string. *)
Fixpoint js (s : string) : jsstring :=
  match s with
  | EmptyString => []
  | String a r => N_of_ascii a :: js r
  end.

(** What a [throw] or a rejected promise carries. *)
Inductive exn : Type :=
  | JsError (message : jsstring)      (* new Error(message) *)
  | DOMException (name : jsstring)    (* raised by a platform call *)
  | ErrorEvent (what : jsstring).     (* an onerror event passed to reject *)

Inductive result (A : Type) : Type :=
  | Ok (a : A)
  | Throw (e : exn).
Arguments Ok {A} a.
Arguments Throw {A} e.

Definition InvalidCharacterError : exn := DOMException (js "InvalidCharacterError").
Definition IndexSizeError : exn := DOMException (js "IndexSizeError").

(** ** The platform's [btoa] and [atob]

    Both are browser built-ins. [btoa] is RFC 4648 base64 with padding,
    defined on strings of code units below 256; [atob] is the
    forgiving-base64 decode of the WHATWG Infra standard. *)
Module Base64.

Definition alphabet : jsstring :=
  js "ABCDEFGHIJKLMNOPQRSTUVWXYZabcdefghijklmnopqrstuvwxyz0123456789+/".

Definition pad : N := 61. (* '=' *)

Definition encodeSextet (s : N) : N := nth (N.to_nat s) alphabet 0.

Fixpoint indexOf (c : N) (l : list N) : option N :=
  match l with
  | [] => None
  | x :: r => if c =? x then Some 0 else option_map N.succ (indexOf c r)
  end.

Definition decodeChar (c : N) : option N := indexOf c alphabet.

(** The 6-bit groups of a byte string, most significant bits first; a
    final group of one or two bytes is completed with zero bits. *)
Fixpoint sextets (s : list N) : list N :=
  match s with
  | a :: b :: c :: r =>
      a / 4 :: (a mod 4) * 16 + b / 16 :: (b mod 16) * 4 + c / 64 :: c mod 64
        :: sextets r
  | [a; b] => [a / 4; (a mod 4) * 16 + b / 16; (b mod 16) * 4]
  | [a] => [a / 4; (a mod 4) * 16]
  | [] => []
  end.

Definition padding (s : list N) : jsstring :=
  match (length s mod 3)%nat with
  | 1%nat => [pad; pad]
  | 2%nat => [pad]
  | _ => []
  end.

(** RFC 4648, section 4. *)
Definition encode (s : list N) : jsstring :=
  map encodeSextet (sextets s) ++ padding s.

Definition btoa (s : jsstring) : result jsstring :=
  if forallb (fun c => c <=? 255) s
  then Ok (encode s)
  else Throw InvalidCharacterError.

(** ASCII whitespace: TAB, LF, FF, CR, SPACE. *)
Definition isAsciiWhitespace (c : N) : bool :=
  (c =? 9) || (c =? 10) || (c =? 12) || (c =? 13) || (c =? 32).

(** "If data ends with one or two U+003D (=), remove them." *)
Definition removePadding (d : jsstring) : jsstring :=
  match rev d with
  | 61 :: 61 :: r => rev r
  | 61 :: r => rev r
  | _ => d
  end.

Fixpoint decodeChars (d : jsstring) : option (list N) :=
  match d with
  | [] => Some []
  | c :: r =>
      match decodeChar c, decodeChars r with
      | Some s, Some ss => Some (s :: ss)
      | _, _ => None
      end
  end.

(** Every 24 buffered bits give three bytes; 18 left over give two and 12
    give one, the surplus bits being discarded. *)
Fixpoint decodeGroups (ss : list N) : list N :=
  match ss with
  | s1 :: s2 :: s3 :: s4 :: r =>
      s1 * 4 + s2 / 16 :: (s2 mod 16) * 16 + s3 / 4 :: (s3 mod 4) * 64 + s4
        :: decodeGroups r
  | [s1; s2; s3] => [s1 * 4 + s2 / 16; (s2 mod 16) * 16 + s3 / 4]
  | [s1; s2] => [s1 * 4 + s2 / 16]
  | _ => []
  end.

Definition atob (data : jsstring) : result jsstring :=
  let d1 := List.filter (fun c => negb (isAsciiWhitespace c)) data in
  let d2 := if (length d1 mod 4 =? 0)%nat then removePadding d1 else d1 in
  if (length d2 mod 4 =? 1)%nat then Throw InvalidCharacterError
  else match decodeChars d2 with
       | None => Throw InvalidCharacterError
       | Some ss => Ok (decodeGroups ss)
       end.

End Base64.

(** ** Typed arrays, strings and plain objects

    A [Uint8Array] is a list of bytes. Reading an element gives its value
    as a number; storing a number keeps it modulo 256, and a
    [Uint8ClampedArray] clamps it to 255 instead. *)
Definition toUint8 (n : N) : byte := default x00 (Byte.of_N (n mod 256)).

Definition toUint8Clamped (n : N) : byte :=
  if 255 <? n then xff else toUint8 n.

(** [s.split(sep)] for a one-character separator. *)
Fixpoint split (sep : N) (s : jsstring) : list jsstring :=
  match s with
  | [] => [[]]
  | c :: r =>
      if c =? sep then [] :: split sep r
      else match split sep r with
           | h :: t => (c :: h) :: t
           | [] => [[c]]
           end
  end.

(** [parts.join(sep)]. *)
Fixpoint join (sep : jsstring) (parts : list jsstring) : jsstring :=
  match parts with
  | [] => []
  | [p] => p
  | p :: r => p ++ sep ++ join sep r
  end.

(** [s.padStart(n, c)] for a one-character filler. *)
Definition padStart (n : nat) (c : N) (s : jsstring) : jsstring :=
  repeat c (n - length s) ++ s.

Fixpoint positiveToString2 (p : positive) : jsstring :=
  match p with
  | xH => [49]
  | xO q => positiveToString2 q ++ [48]
  | xI q => positiveToString2 q ++ [49]
  end.

(** [n.toString(2)]. *)
Definition toString2 (n : N) : jsstring :=
  match n with
  | N0 => [48]
  | Npos p => positiveToString2 p
  end.

Definition hexDigit (n : N) : N := nth (N.to_nat n) (js "0123456789abcdef") 48.

(** [b.toString(16)] for a byte [b]: one or two lower-case digits. *)
Definition byteToString16 (b : byte) : jsstring :=
  let n := Byte.to_N b in
  if n <? 16 then [hexDigit n] else [hexDigit (n / 16); hexDigit (n mod 16)].

(** The value a template literal prints for [s[i]]. *)
Definition charAtOrUndefined (s : jsstring) (i : nat) : jsstring :=
  match s !! i with
  | Some c => [c]
  | None => js "undefined"
  end.

(** A plain object whose properties are strings and booleans, in
    insertion order. *)
Inductive jsvalue : Type :=
  | VString (s : jsstring)
  | VBool (b : bool).

Definition jsobject := list (jsstring * jsvalue).

(** [JSON.stringify] on such an object (ECMAScript QuoteJSONString and
    SerializeJSONObject without indentation). *)
Module JSON.

Definition unicodeEscape (c : N) : jsstring :=
  js "\u" ++ [hexDigit (c / 4096); hexDigit ((c / 256) mod 16);
              hexDigit ((c / 16) mod 16); hexDigit (c mod 16)].

Definition isLeadingSurrogate (c : N) : bool := (55296 <=? c) && (c <=? 56319).
Definition isTrailingSurrogate (c : N) : bool := (56320 <=? c) && (c <=? 57343).

Definition quoteCodeUnit (c : N) : jsstring :=
  if c =? 8 then js "\b"
  else if c =? 9 then js "\t"
  else if c =? 10 then js "\n"
  else if c =? 12 then js "\f"
  else if c =? 13 then js "\r"
  else if c =? 34 then [92; 34]
  else if c =? 92 then [92; 92]
  else if c <? 32 then unicodeEscape c
  else [c].

Fixpoint quoteChars (s : jsstring) : jsstring :=
  match s with
  | [] => []
  | c :: r =>
      if isLeadingSurrogate c then
        match r with
        | d :: r' =>
            if isTrailingSurrogate d then c :: d :: quoteChars r'
            else unicodeEscape c ++ quoteChars r
        | [] => unicodeEscape c
        end
      else if isTrailingSurrogate c then unicodeEscape c ++ quoteChars r
      else quoteCodeUnit c ++ quoteChars r
  end.

Definition quote (s : jsstring) : jsstring := [34] ++ quoteChars s ++ [34].

Definition serializeValue (v : jsvalue) : jsstring :=
  match v with
  | VString s => quote s
  | VBool true => js "true"
  | VBool false => js "false"
  end.

Definition stringify (o : jsobject) : jsstring :=
  js "{" ++ join (js ",") (map (fun kv => quote kv.1 ++ js ":" ++ serializeValue kv.2) o)
    ++ js "}".

End JSON.

(** ** Files, blobs and the canvas *)

Record Blob : Type := { blobBytes : list byte; blobType : jsstring }.

(** A file with its content in memory: [file.arrayBuffer()] and a
    [FileReader] on it give [fileBytes]. *)
Record File : Type := { fileName : jsstring; fileType : jsstring; fileBytes : list byte }.

Definition asciiLower (c : N) : N :=
  if (65 <=? c) && (c <=? 90) then c + 32 else c.

(** [new Blob([bytes], { type })]: a type with a character outside
    U+0020..U+007E becomes the empty string, any other is lower-cased. *)
Definition newBlob (bytes : list byte) (type : jsstring) : Blob :=
  {| blobBytes := bytes;
     blobType := if forallb (fun c => (32 <=? c) && (c <=? 126)) type
                 then map asciiLower type else [] |}.

(** [FileReader.readAsDataURL]: the content as a base64 data URL. *)
Definition readAsDataURL (type : jsstring) (bytes : list byte) : jsstring :=
  js "data:" ++ (if bool_decide (type = []) then js "application/octet-stream" else type)
    ++ js ";base64," ++ Base64.encode (map Byte.to_N bytes).

(** A canvas bitmap: [cwidth] x [cheight] pixels, four bytes (R, G, B, A)
    per pixel, rows from top to bottom. *)
Record Canvas : Type := { cwidth : nat; cheight : nat; pixels : list byte }.

(** Channel [c] of the pixel at column [x], row [y]; transparent black
    outside the bitmap. *)
Definition channelAt (cv : Canvas) (x y c : nat) : byte :=
  if (x <? cwidth cv)%nat && (y <? cheight cv)%nat
  then nth (4 * (y * cwidth cv + x) + c) (pixels cv) x00
  else x00.

Record ImageData : Type := { iwidth : nat; iheight : nat; data : list byte }.

(** [ctx.getImageData(sx, sy, sw, sh)]: the rectangle's pixels in raster
    order; an empty rectangle is an IndexSizeError. *)
Definition getImageData (cv : Canvas) (sx sy sw sh : nat) : result ImageData :=
  if (sw =? 0)%nat || (sh =? 0)%nat then Throw IndexSizeError
  else Ok {| iwidth := sw; iheight := sh;
             data := flat_map (fun r =>
                       flat_map (fun c =>
                         map (channelAt cv (sx + c) (sy + r)) (seq 0 4))
                       (seq 0 sw))
                     (seq 0 sh) |}.

(** [ctx.putImageData(img, dx, dy)]: the rectangle is replaced by the
    image data, the rest of the bitmap is kept. *)
Definition putImageData (cv : Canvas) (img : ImageData) (dx dy : nat) : Canvas :=
  {| cwidth := cwidth cv; cheight := cheight cv;
     pixels := flat_map (fun y =>
                 flat_map (fun x =>
                   map (fun c =>
                     if (dx <=? x)%nat && (x <? dx + iwidth img)%nat
                        && (dy <=? y)%nat && (y <? dy + iheight img)%nat
                     then nth (4 * ((y - dy) * iwidth img + (x - dx)) + c) (data img) x00
                     else channelAt cv x y c)
                   (seq 0 4))
                 (seq 0 (cwidth cv)))
               (seq 0 (cheight cv)) |}.

(** ** The platform

    What the browser provides and the sources call: the clock, the random
    sources, text encoding and case mapping, SHA-256 and AES-GCM, image
    decoding and encoding, the 2D context and text rendering, and the
    registration request. A [world] is the state these calls read and
    advance. *)
Record Platform : Type := {
  world : Type;
  CryptoKey : Type;
  (** [new Date()], as milliseconds since the epoch *)
  newDate : world -> N * world;
  toISOString : N -> jsstring;
  (** [date.toLocaleDateString('en-GB', ...)] *)
  toLocaleDateString : N -> jsstring;
  (** [crypto.randomUUID()] *)
  randomUUID : world -> jsstring * world;
  (** one byte of [crypto.getRandomValues] *)
  randomByte : world -> byte * world;
  (** [new TextEncoder().encode(s)] *)
  utf8 : jsstring -> list byte;
  toLowerCase : jsstring -> jsstring;
  (** [crypto.subtle.digest('SHA-256', bytes)] *)
  sha256 : list byte -> list byte;
  (** [crypto.subtle.encrypt({name: 'AES-GCM', iv, tagLength}, key, data)]:
      the ciphertext followed by the authentication tag; a [CryptoKey] is a
      key with the encrypt usage, as [generateEncryptionKey], [importKey]
      and [deriveKey] make them *)
  aesGcmEncrypt : CryptoKey -> list byte -> N -> list byte -> list byte;
  (** [loadImage] of the file's object URL and [ctx.drawImage(image, 0, 0)]
      on a canvas of the image's size; [None] when the image fails to load *)
  loadImage : File -> world -> option Canvas * world;
  (** whether [canvas.getContext('2d')] returns a context *)
  getContext2d : world -> bool * world;
  (** the drawing calls of [applyVisibleWatermark] *)
  applyVisibleWatermark : jsstring -> QArith_base.Q -> Canvas -> world -> Canvas * world;
  (** the image file [canvas.toDataURL(mimeType, quality)] encodes *)
  encodeImage : jsstring -> Canvas -> list byte;
  (** [registerDriverJSON(fields, documents)] *)
  registerDriverJSON : gmap jsstring (option jsstring) -> world -> result unit * world;
}.

(** ** Promises and exceptions

    An [async] function is a computation on the world that returns a value
    or throws; [await] is [bind] and [try]/[catch] is [tryCatch]. *)
Definition M (W A : Type) : Type := W -> result A * W.

Definition ret {W A} (a : A) : M W A := fun w => (Ok a, w).

Definition throw {W A} (e : exn) : M W A := fun w => (Throw e, w).

Definition bind {W A B} (c : M W A) (k : A -> M W B) : M W B :=
  fun w => match c w with
           | (Ok a, w') => k a w'
           | (Throw e, w') => (Throw e, w')
           end.

Definition call {W A} (f : W -> A * W) : M W A :=
  fun w => let (a, w') := f w in (Ok a, w').

Definition liftResult {W A} (r : result A) : M W A := fun w => (r, w).


Notation "x <- c ;; k" := (bind c (fun x => k))
  (at level 100, c at next level, right associativity).

(** ** [src/lib/security/encryption.ts] *)
Module Encryption.

Definition IV_LENGTH : nat := 12.
Definition TAG_LENGTH : N := 128.

(** [arrayBufferToBase64]: one character per byte with
    [String.fromCharCode], then [btoa]. *)
Definition arrayBufferToBase64 (buffer : list byte) : result jsstring :=
  Base64.btoa (map Byte.to_N buffer).

(** [base64ToArrayBuffer]: [atob], then one byte per character with
    [charCodeAt]. *)
Definition base64ToArrayBuffer (base64 : jsstring) : result (list byte) :=
  match Base64.atob base64 with
  | Ok binary => Ok (map toUint8 binary)
  | Throw e => Throw e
  end.

Section WithPlatform.
Context (P : Platform).

(** [crypto.getRandomValues(new Uint8Array(n))]. *)
Fixpoint getRandomValues (n : nat) : M (world P) (list byte) :=
  match n with
  | O => ret []
  | S m => b <- call (randomByte P) ;; r <- getRandomValues m ;; ret (b :: r)
  end.

Definition encryptData (data : list byte) (key : CryptoKey P) : M (world P) jsstring :=
  iv <- getRandomValues IV_LENGTH ;;
  let ciphertext := aesGcmEncrypt P key iv TAG_LENGTH data in
  let combined := iv ++ ciphertext in
  liftResult (arrayBufferToBase64 combined).

End WithPlatform.
End Encryption.

(** ** The watermark module *)

Module WatermarkedDocument.
Record t : Type := {
  data : jsstring;
  originalName : jsstring;
  mimeType : jsstring;
  metadataHash : jsstring;
  processedAt : jsstring;
}.
End WatermarkedDocument.

Module ProcessedDocument.
Record t : Type := {
  blob : Blob;
  originalName : jsstring;
  mimeType : jsstring;
  metadataHash : option jsstring;
  watermarkId : option jsstring;
  processedAt : jsstring;
}.
End ProcessedDocument.

Module Watermark.

Record WatermarkOptions : Type := {
  sessionId : jsstring;
  email : jsstring;
  timestamp : N;
  visibleWatermark : option bool;
  watermarkText : option jsstring;
  opacity : option QArith_base.Q;
}.

Record ProcessDocumentOptions : Type := {
  userEmail : jsstring;
  documentType : jsstring;
  addVisibleWatermark : option bool;
  addInvisibleWatermark : option bool;
}.

(** What [applyPdfWatermark] resolves to. *)
Record PdfPackage : Type := {
  pdfData : jsstring;
  requiresServerProcessing : bool;
  pdfMetadata : jsobject;
}.

Definition includes (l : list jsstring) (s : jsstring) : bool :=
  existsb (fun x => bool_decide (x = s)) l.

Definition imageTypes : list jsstring :=
  [js "image/jpeg"; js "image/png"; js "image/jpg"].

(** [text.split('').map(c => c.charCodeAt(0).toString(2).padStart(8, '0')).join('')] *)
Definition textToBinary (text : jsstring) : jsstring :=
  flat_map (fun c => padStart 8 48 (toString2 c)) text.

Definition arrayBufferToHex (buffer : list byte) : jsstring :=
  flat_map (fun b => padStart 2 48 (byteToString16 b)) buffer.

Definition arrayBufferToBase64 (buffer : list byte) : result jsstring :=
  Base64.btoa (map Byte.to_N buffer).

(** The capture group of [/:(.*?);/]: the shortest run of characters other
    than line terminators between a colon and a semicolon, at the first
    colon where there is one. *)
Definition isLineTerminator (c : N) : bool :=
  (c =? 10) || (c =? 13) || (c =? 8232) || (c =? 8233).

Fixpoint untilSemicolon (s : jsstring) : option jsstring :=
  match s with
  | [] => None
  | c :: r =>
      if c =? 59 then Some []
      else if isLineTerminator c then None
      else option_map (cons c) (untilSemicolon r)
  end.

Fixpoint mimeMatch (s : jsstring) : option jsstring :=
  match s with
  | [] => None
  | c :: r =>
      if c =? 58 then
        match untilSemicolon r with
        | Some m => Some m
        | None => mimeMatch r
        end
      else mimeMatch r
  end.

(** [dataUrlToBlob]. With no comma in [dataUrl], [arr[1]] is [undefined],
    which [atob] receives as the string "undefined". *)
Definition dataUrlToBlob (dataUrl : jsstring) : result Blob :=
  let arr := split 44 dataUrl in
  let mime := match mimeMatch (nth 0 arr []) with
              | Some m => m
              | None => js "application/octet-stream"
              end in
  match Base64.atob (default (js "undefined") (arr !! 1%nat)) with
  | Throw e => Throw e
  | Ok bstr => Ok (newBlob (map toUint8 bstr) mime)
  end.

(** [parseInt(ch, 10)] of one character, as the bitwise [|] uses it: the
    digit, or 0 for NaN. *)
Definition parseDigit (ch : N) : N :=
  if (48 <=? ch) && (ch <=? 57) then ch - 48 else 0.

(** [(b & 0xFE) | bit], stored in a [Uint8ClampedArray]. *)
Definition setLsb (b : byte) (bit : N) : byte :=
  toUint8Clamped (N.lor (N.land (Byte.to_N b) 254) bit).

(** The embedding loop: [i] advances by four bytes and [bitIndex] by one
    character of [binary] until either runs out. *)
Fixpoint embedBits (data : list byte) (binary : jsstring) {struct binary} : list byte :=
  match binary with
  | [] => data
  | ch :: bs =>
      match data with
      | r :: g :: b :: a :: rest =>
          r :: g :: setLsb b (parseDigit ch) :: a :: embedBits rest bs
      | [r; g; b] => [r; g; setLsb b (parseDigit ch)]
      | _ => data
      end
  end.

(** [Math.min(100, Math.floor(width * 0.1), Math.floor(height * 0.1))]; for
    a whole number [n] below 2^53, [Math.floor(n * 0.1)] is the quotient of
    [n] by 10. *)
Definition regionSize (width height : nat) : nat :=
  Nat.min 100 (Nat.min (width / 10) (height / 10)).

Definition applyInvisibleWatermark (ctx : Canvas) (metadata : jsobject)
    (width height : nat) : result Canvas :=
  let metadataStr := JSON.stringify metadata in
  let binary := textToBinary metadataStr in
  let regionSize := regionSize width height in
  match getImageData ctx (width - regionSize) (height - regionSize) regionSize regionSize with
  | Throw e => Throw e
  | Ok imageData =>
      let imageData' := {| iwidth := iwidth imageData; iheight := iheight imageData;
                           data := embedBits (data imageData) binary |} in
      Ok (putImageData ctx imageData' (width - regionSize) (height - regionSize))
  end.

Definition maskEmail (email : jsstring) : jsstring :=
  let parts := split 64 email in
  let local := nth 0 parts [] in
  match parts !! 1%nat with
  | None | Some [] => js "***"
  | Some domain =>
      let maskedLocal :=
        if (2 <? length local)%nat
        then charAtOrUndefined local 0
               ++ repeat 42 (Nat.min (length local - 2) 4)
               ++ charAtOrUndefined local (length local - 1)
        else js "**" in
      let domainParts := split 46 domain in
      let maskedDomain :=
        if (1 <? length domainParts)%nat
        then charAtOrUndefined (nth 0 domainParts []) 0 ++ js "***"
               ++ nth (length domainParts - 1) domainParts []
        else domain in
      maskedLocal ++ js "@" ++ maskedDomain
  end.

Section WithPlatform.
Context (P : Platform).

Definition hashEmail (email : jsstring) : jsstring :=
  let hashBuffer := sha256 P (utf8 P (toLowerCase P email)) in
  take 16 (arrayBufferToHex hashBuffer).

Definition generateMetadataHash (metadata : jsobject) : jsstring :=
  arrayBufferToHex (sha256 P (utf8 P (JSON.stringify metadata))).

(** The [metadata] object of [applyWatermark]. *)
Definition imageMetadata (options : WatermarkOptions) : jsobject :=
  [ (js "sessionId", VString (sessionId options));
    (js "emailHash", VString (hashEmail (email options)));
    (js "timestamp", VString (toISOString P (timestamp options)));
    (js "purpose", VString (js "driver_registration"));
    (js "platform", VString (js "deligo_website")) ].

(** The [metadata] object of [applyPdfWatermark]. *)
Definition pdfMetadataOf (options : WatermarkOptions) : jsobject :=
  [ (js "sessionId", VString (sessionId options));
    (js "emailHash", VString (hashEmail (email options)));
    (js "timestamp", VString (toISOString P (timestamp options)));
    (js "purpose", VString (js "driver_registration"));
    (js "requiresServerWatermark", VBool true) ].

(** [canvas.toDataURL(mimeType, quality)]; a canvas with no pixels gives
    "data:,". *)
Definition toDataURL (canvas : Canvas) (mimeType : jsstring) : jsstring :=
  if (cwidth canvas =? 0)%nat || (cheight canvas =? 0)%nat then js "data:,"
  else js "data:" ++ mimeType ++ js ";base64,"
         ++ Base64.encode (map Byte.to_N (encodeImage P mimeType canvas)).

Definition applyWatermark (file : File) (options : WatermarkOptions)
    : M (world P) WatermarkedDocument.t :=
  let visible := default true (visibleWatermark options) in
  let opacity := default (QArith_base.Qmake 15 100) (opacity options) in
  if negb (includes imageTypes (fileType file))
  then throw (JsError (js "Watermarking only supports JPEG and PNG images"))
  else
    loaded <- call (loadImage P file) ;;
    match loaded with
    | None => throw (ErrorEvent (js "error"))
    | Some image =>
        hasCtx <- call (getContext2d P) ;;
        if negb hasCtx then throw (JsError (js "Canvas context not available"))
        else
          let metadata := imageMetadata options in
          ctx1 <- liftResult
                    (applyInvisibleWatermark image metadata (cwidth image) (cheight image)) ;;
          ctx2 <- (if visible
                   then
                     let text :=
                       match watermarkText options with
                       | Some (c :: t) => c :: t
                       | _ => js "D" ++ [201] ++ js "LIGO - " ++ maskEmail (email options)
                                ++ js " - " ++ toLocaleDateString P (timestamp options)
                       end in
                     call (applyVisibleWatermark P text opacity ctx1)
                   else ret ctx1) ;;
          let mimeType := if bool_decide (fileType file = js "image/png")
                          then js "image/png" else js "image/jpeg" in
          let dataUrl := toDataURL ctx2 mimeType in
          let metadataHash := generateMetadataHash metadata in
          ret {| WatermarkedDocument.data := dataUrl;
                 WatermarkedDocument.originalName := fileName file;
                 WatermarkedDocument.mimeType := mimeType;
                 WatermarkedDocument.metadataHash := metadataHash;
                 WatermarkedDocument.processedAt := toISOString P (timestamp options) |}
    end.

Definition applyPdfWatermark (file : File) (options : WatermarkOptions)
    : M (world P) PdfPackage :=
  let arrayBuffer := fileBytes file in
  base64 <- liftResult (arrayBufferToBase64 arrayBuffer) ;;
  let metadata := pdfMetadataOf options in
  ret {| pdfData := js "data:application/pdf;base64," ++ base64;
         requiresServerProcessing := true;
         pdfMetadata := metadata |}.

Definition processDocument (file : File) (options : ProcessDocumentOptions)
    : M (world P) ProcessedDocument.t :=
  timestamp <- call (newDate P) ;;
  sessionId <- call (randomUUID P) ;;
  let watermarkOptions :=
    {| sessionId := sessionId;
       email := userEmail options;
       timestamp := timestamp;
       visibleWatermark := Some (default true (addVisibleWatermark options));
       watermarkText := None;
       opacity := None |} in
  if bool_decide (fileType file = js "application/pdf") then
    result <- applyPdfWatermark file watermarkOptions ;;
    blob <- liftResult (dataUrlToBlob (pdfData result)) ;;
    ret {| ProcessedDocument.blob := blob;
           ProcessedDocument.originalName := fileName file;
           ProcessedDocument.mimeType := fileType file;
           ProcessedDocument.metadataHash := None;
           ProcessedDocument.watermarkId := Some sessionId;
           ProcessedDocument.processedAt := toISOString P timestamp |}
  else if includes imageTypes (fileType file) then
    result <- applyWatermark file watermarkOptions ;;
    blob <- liftResult (dataUrlToBlob (WatermarkedDocument.data result)) ;;
    ret {| ProcessedDocument.blob := blob;
           ProcessedDocument.originalName := WatermarkedDocument.originalName result;
           ProcessedDocument.mimeType := WatermarkedDocument.mimeType result;
           ProcessedDocument.metadataHash := Some (WatermarkedDocument.metadataHash result);
           ProcessedDocument.watermarkId := Some sessionId;
           ProcessedDocument.processedAt := WatermarkedDocument.processedAt result |}
  else throw (JsError (js "Unsupported file type: " ++ fileType file)).

End WithPlatform.
End Watermark.

(** ** The registration modal: [handleDocumentsSubmit] *)
Module Registration.

Record Documents : Type := {
  drivingLicense : option File;
  vehicleRegistration : option File;
  insuranceDocument : option File;
  workPatent : option File;
}.






(** [Math.round((processed / totalDocs) * 70)] *)
Definition roundProgress (processed totalDocs : nat) : N :=
  (2 * 70 * N.of_nat processed + N.of_nat totalDocs) / (2 * N.of_nat totalDocs).


(** What the user is shown when the handler stops with [setError]. *)
Inductive UiError : Type :=
  | SessionExpired
  | RegistrationFailed (err : exn).

Record Outcome : Type := {
  (** the [documents] argument of [registerDriverJSON], once it is called *)
  submitted : option (gmap jsstring (option jsstring));
  processedCount : nat;
  progressLog : list N;
  error : option UiError;
  (** [goToNextStep()] was reached *)
  advanced : bool;
}.

Section WithPlatform.
Context (P : Platform).




End WithPlatform.
End Registration.

(** ** A small concrete platform

    Stand-ins on which the definitions above can be run: the world is a
    counter, every image decodes to a 40 x 40 opaque black bitmap, the
    digest and the cipher are toys. *)
Module Demo.

Definition blank (w h : nat) : Canvas :=
  {| cwidth := w; cheight := h;
     pixels := flat_map (fun _ => [x00; x00; x00; xff]) (seq 0 (w * h)) |}.

Definition toyDigest (bytes : list byte) : list byte :=
  take 32 (bytes ++ repeat x2a 32).

Definition platform (hasContext : bool) : Platform :=
  {| world := nat;
     CryptoKey := list byte;
     newDate := fun w => (1700000000000 + N.of_nat w, S w);
     toISOString := fun _ => js "2023-11-14T22:13:20.000Z";
     toLocaleDateString := fun _ => js "14/11/2023";
     randomUUID := fun w => (js "3f2b8c1e-5d4a-4c6b-9e7f-0a1b2c3d4e5f", S w);
     randomByte := fun w => (toUint8 (37 * N.of_nat w + 11), S w);
     utf8 := map toUint8;
     toLowerCase := map asciiLower;
     sha256 := toyDigest;
     aesGcmEncrypt := fun key iv _ data => data ++ take 16 (iv ++ key ++ repeat x00 16);
     loadImage := fun _ w => (Some (blank 40 40), w);
     getContext2d := fun w => (hasContext, w);
     applyVisibleWatermark := fun _ _ cv w => (cv, w);
     encodeImage := fun _ cv => pixels cv;
     registerDriverJSON := fun _ w => (Ok tt, w) |}.

Definition jpeg : File :=
  {| fileName := js "licence.jpg"; fileType := js "image/jpeg";
     fileBytes := [xff; xd8; xff; xe0; x00; x10] |}.


Definition text : File :=
  {| fileName := js "notes.txt"; fileType := js "text/plain";
     fileBytes := [x68; x65; x6c; x6c; x6f] |}.

Definition options : Watermark.ProcessDocumentOptions :=
  {| Watermark.userEmail := js "jane.doe@example.com";
     Watermark.documentType := js "drivingLicense";
     Watermark.addVisibleWatermark := Some true;
     Watermark.addInvisibleWatermark := Some true |}.

End Demo.

(** ** Notions used in the statements *)

Definition isByte (n : N) : Prop := n < 256.
Definition isSextet (n : N) : Prop := n < 64.


(** A character that may stand in the media type of a data URL without
    ending it: not a comma, not a semicolon, not a line terminator. *)
Definition mimeChar (c : N) : bool :=
  negb (c =? 44) && negb (c =? 59) && negb (Watermark.isLineTerminator c).

Definition notComma (c : N) : bool := negb (c =? 44).



(** Two runs agree when both throw the same error or both return, with the
    same value of the observed field. *)
Definition agree {A B} (observe : A -> B) (r1 r2 : result A) : Prop :=
  match r1, r2 with
  | Ok a1, Ok a2 => observe a1 = observe a2
  | Throw e1, Throw e2 => e1 = e2
  | _, _ => False
  end.





(** The place of pixel (x, y) in the reserved bottom-right region, counted
    in raster order; [None] outside the region. *)
Definition regionIndex (width height x y : nat) : option nat :=
  let rs := Watermark.regionSize width height in
  if (width - rs <=? x)%nat && (x <? width)%nat
     && (height - rs <=? y)%nat && (y <? height)%nat
  then Some ((y - (height - rs)) * rs + (x - (width - rs)))%nat
  else None.

(** Eight bits per character, most significant bit first. *)
Definition charBits8 (c : N) : list bool := map (N.testbit c) [7; 6; 5; 4; 3; 2; 1; 0].

Definition payloadBits8 (text : jsstring) : list bool := flat_map charBits8 text.

Definition bitChar (b : bool) : N := if b then 49 else 48.

(** [ctx'] is [ctx] with the bits written, one per pixel, into the lowest
    bit of the blue byte of the first pixels of the reserved region, and
    with every other bit of every byte of every pixel as in [ctx]. *)
Definition embedsPayload (bits : list bool) (ctx ctx' : Canvas) : Prop :=
  cwidth ctx' = cwidth ctx /\ cheight ctx' = cheight ctx
  /\ forall x y c, (x < cwidth ctx)%nat -> (y < cheight ctx)%nat -> (c < 4)%nat ->
       match regionIndex (cwidth ctx) (cheight ctx) x y with
       | Some k =>
           if (c =? 2)%nat && (k <? length bits)%nat
           then forall j,
                  N.testbit (Byte.to_N (channelAt ctx' x y c)) j
                  = if j =? 0 then nth k bits false
                    else N.testbit (Byte.to_N (channelAt ctx x y c)) j
           else channelAt ctx' x y c = channelAt ctx x y c
       | None => channelAt ctx' x y c = channelAt ctx x y c
       end.

(** A metadata object with a character above U+00FF: the euro sign. *)
Definition euroMetadata : jsobject := [(js "sessionId", VString [8364])].

(** * Further functions of the same modules *)

(** ** [src/lib/security/encryption.ts]: keys, files, identifiers, hashes *)
Module EncryptionMore.

(** What [encryptFile] resolves to. *)
Record EncryptedFile : Type := {
  encrypted : jsstring;
  originalName : jsstring;
  mimeType : jsstring;
  size : N;
}.

Section WithPlatform.
Context (P : Platform).

(** [crypto.subtle.exportKey('raw', key)] and
    [crypto.subtle.importKey('raw', bytes, ...)]; either may reject. *)
Context (exportRaw : CryptoKey P -> result (list byte)).
Context (importRaw : list byte -> result (CryptoKey P)).

Definition exportKey (key : CryptoKey P) : result jsstring :=
  match exportRaw key with
  | Ok exported => Encryption.arrayBufferToBase64 exported
  | Throw e => Throw e
  end.

Definition importKey (keyBase64 : jsstring) : result (CryptoKey P) :=
  match Encryption.base64ToArrayBuffer keyBase64 with
  | Ok keyBuffer => importRaw keyBuffer
  | Throw e => Throw e
  end.

Definition encryptFile (file : File) (key : CryptoKey P) : M (world P) EncryptedFile :=
  let arrayBuffer := fileBytes file in
  encrypted <- Encryption.encryptData P arrayBuffer key ;;
  ret {| encrypted := encrypted;
         originalName := fileName file;
         mimeType := fileType file;
         size := N.of_nat (length (fileBytes file)) |}.

(** [encryptBase64]: the text after the first comma when there is a comma,
    the whole text otherwise. *)
Definition encryptBase64 (base64Data : jsstring) (key : CryptoKey P) : M (world P) jsstring :=
  let base64Content :=
    if existsb (fun c => c =? 44) base64Data
    then default (js "undefined") (split 44 base64Data !! 1%nat)
    else base64Data in
  binaryData <- liftResult (Encryption.base64ToArrayBuffer base64Content) ;;
  Encryption.encryptData P binaryData key.


Definition hashData (data : jsstring) : result jsstring :=
  Encryption.arrayBufferToBase64 (sha256 P (utf8 P data)).

End WithPlatform.
End EncryptionMore.

(** A base64 text with its ASCII whitespace removed. *)
Definition stripWhitespace (s : jsstring) : jsstring :=
  List.filter (fun c => negb (Base64.isAsciiWhitespace c)) s.

(** A character [atob] can do nothing with: not in the alphabet, not
    padding, not whitespace. *)
Definition foreignChar (c : N) : bool :=
  match Base64.decodeChar c with
  | Some _ => false
  | None => negb (c =? Base64.pad) && negb (Base64.isAsciiWhitespace c)
  end.

(** ** More of the watermark module *)

(** The characters of [binary] as bits: '1' is [true]. *)
Definition binaryBits (text : jsstring) : list bool :=
  map (fun ch => ch =? 49) (Watermark.textToBinary text).

(** A bitmap given by its channel values, as the byte array of a canvas. *)
Definition raster (g : nat -> nat -> nat -> byte) (w h : nat) : list byte :=
  flat_map (fun y => flat_map (fun x => map (g x y) (seq 0 4)) (seq 0 w)) (seq 0 h).

(** The concrete platform with images that decode to 8 x 8 pixels. *)
Definition tinyPlatform : Platform :=
  {| world := nat;
     CryptoKey := list byte;
     newDate := newDate (Demo.platform true);
     toISOString := toISOString (Demo.platform true);
     toLocaleDateString := toLocaleDateString (Demo.platform true);
     randomUUID := randomUUID (Demo.platform true);
     randomByte := randomByte (Demo.platform true);
     utf8 := utf8 (Demo.platform true);
     toLowerCase := toLowerCase (Demo.platform true);
     sha256 := sha256 (Demo.platform true);
     aesGcmEncrypt := aesGcmEncrypt (Demo.platform true);
     loadImage := fun _ w => (Some (Demo.blank 8 8), w);
     getContext2d := getContext2d (Demo.platform true);
     applyVisibleWatermark := applyVisibleWatermark (Demo.platform true);
     encodeImage := encodeImage (Demo.platform true);
     registerDriverJSON := registerDriverJSON (Demo.platform true) |}.

(** The number whose eight bits, most significant first, are given. *)
Definition fromBits8 (bits : list bool) : N :=
  fold_left (fun acc (b : bool) => 2 * acc + N.b2n b) bits 0.

Section WithPlatform.
Context (P : Platform).

(** [processDocumentFull]: the same routing on full [WatermarkOptions],
    returning what the handler returned. *)
Definition processDocumentFull (file : File) (options : Watermark.WatermarkOptions)
    : M (world P) (WatermarkedDocument.t + Watermark.PdfPackage) :=
  if bool_decide (fileType file = js "application/pdf") then
    r <- Watermark.applyPdfWatermark P file options ;; ret (inr r)
  else if Watermark.includes Watermark.imageTypes (fileType file) then
    r <- Watermark.applyWatermark P file options ;; ret (inl r)
  else throw (JsError (js "Unsupported file type: " ++ fileType file)).

(** The [watermarkOptions] that [processDocument] builds. *)
Definition watermarkOptionsOf (options : Watermark.ProcessDocumentOptions)
    (timestamp : N) (sessionId : jsstring) : Watermark.WatermarkOptions :=
  {| Watermark.sessionId := sessionId;
     Watermark.email := Watermark.userEmail options;
     Watermark.timestamp := timestamp;
     Watermark.visibleWatermark :=
       Some (default true (Watermark.addVisibleWatermark options));
     Watermark.watermarkText := None;
     Watermark.opacity := None |}.

(** The text of the visible watermark when none is given. *)
Definition defaultWatermarkText (email : jsstring) (timestamp : N) : jsstring :=
  js "D" ++ [201] ++ js "LIGO - " ++ Watermark.maskEmail email
    ++ js " - " ++ toLocaleDateString P timestamp.

End WithPlatform.

Definition notAt (c : N) : bool := negb (c =? 64).
Definition notDot (c : N) : bool := negb (c =? 46).

(** ** The registration modal: step navigation *)
Module Navigation.

Inductive RegistrationStep : Type :=
  | EmailName | OtpVerification | Password | VehicleInfo | DocumentsStep | Success.

Definition STEP_ORDER : list RegistrationStep :=
  [EmailName; OtpVerification; Password; VehicleInfo; DocumentsStep; Success].

Definition stepEqb (a b : RegistrationStep) : bool :=
  match a, b with
  | EmailName, EmailName | OtpVerification, OtpVerification | Password, Password
  | VehicleInfo, VehicleInfo | DocumentsStep, DocumentsStep | Success, Success => true
  | _, _ => false
  end.

(** [array.indexOf(step)]: -1 when absent. *)
Fixpoint indexOfFrom (i : Z) (l : list RegistrationStep) (step : RegistrationStep) : Z :=
  match l with
  | [] => (-1)%Z
  | x :: r => if stepEqb x step then i else indexOfFrom (i + 1)%Z r step
  end.

Record State : Type := { currentStep : RegistrationStep; error : option jsstring }.

Definition currentStepIndex (st : State) : Z := indexOfFrom 0 STEP_ORDER (currentStep st).

Definition goToNextStep (st : State) : State :=
  let nextIndex := (currentStepIndex st + 1)%Z in
  if (nextIndex <? Z.of_nat (length STEP_ORDER))%Z
  then {| currentStep := default (currentStep st) (STEP_ORDER !! Z.to_nat nextIndex);
          error := None |}
  else st.

Definition goToPreviousStep (st : State) : State :=
  let prevIndex := (currentStepIndex st - 1)%Z in
  if (0 <=? prevIndex)%Z
  then {| currentStep := default (currentStep st) (STEP_ORDER !! Z.to_nat prevIndex);
          error := None |}
  else st.

End Navigation.

(** ** The client-side rate limiter the modal calls

    [rateLimitMap] is the state; each function reads [Date.now()] once, and
    [now] is the value read. Times are whole milliseconds, far below 2^53,
    where dividing by 1000 in floating point and rounding up gives the
    ceiling of the exact quotient. *)
Module RateLimit.

Definition checkRateLimit (action : jsstring) (limitMs : option Z) (now : Z)
    (rateLimitMap : gmap jsstring Z) : bool * gmap jsstring Z :=
  let limitMs := default 60000%Z limitMs in
  match rateLimitMap !! action with
  | Some lastCall =>
      if negb (lastCall =? 0)%Z && (now - lastCall <? limitMs)%Z
      then (false, rateLimitMap)
      else (true, <[action := now]> rateLimitMap)
  | None => (true, <[action := now]> rateLimitMap)
  end.

(** [Math.ceil(x / 1000)] *)
Definition ceilThousandth (x : Z) : Z := (- ((- x) / 1000))%Z.

Definition getRateLimitRemaining (action : jsstring) (limitMs : option Z) (now : Z)
    (rateLimitMap : gmap jsstring Z) : Z :=
  let limitMs := default 60000%Z limitMs in
  match rateLimitMap !! action with
  | Some lastCall =>
      if (lastCall =? 0)%Z then 0%Z
      else
        let remaining := (limitMs - (now - lastCall))%Z in
        Z.max 0 (ceilThousandth remaining)
  | None => 0%Z
  end.

End RateLimit.

(** ** Document validation and the upload step *)
Module Validation.

Record ValidationResult : Type := { isValid : bool; errors : list jsstring }.

Record DocumentOptions : Type := {
  required : option bool;
  maxSizeMB : option N;
  allowedTypes : option (list jsstring);
}.

Fixpoint uintToString (u : Decimal.uint) : jsstring :=
  match u with
  | Decimal.Nil => []
  | Decimal.D0 r => 48 :: uintToString r
  | Decimal.D1 r => 49 :: uintToString r
  | Decimal.D2 r => 50 :: uintToString r
  | Decimal.D3 r => 51 :: uintToString r
  | Decimal.D4 r => 52 :: uintToString r
  | Decimal.D5 r => 53 :: uintToString r
  | Decimal.D6 r => 54 :: uintToString r
  | Decimal.D7 r => 55 :: uintToString r
  | Decimal.D8 r => 56 :: uintToString r
  | Decimal.D9 r => 57 :: uintToString r
  end.

(** A whole number in a template literal. *)
Definition numberToString (n : N) : jsstring := uintToString (N.to_uint n).

(** What [validExtensions[type]] finds: a list of the object's own, a
    member inherited from [Object.prototype] (truthy, without [includes]),
    or nothing. *)
Inductive Lookup : Type :=
  | Own (extensions : list jsstring)
  | Inherited
  | Missing.

Definition objectPrototypeKeys : list jsstring :=
  [ js "constructor"; js "__defineGetter__"; js "__defineSetter__";
    js "hasOwnProperty"; js "__lookupGetter__"; js "__lookupSetter__";
    js "isPrototypeOf"; js "propertyIsEnumerable"; js "toString"; js "valueOf";
    js "__proto__"; js "toLocaleString" ].

Definition validExtensions (type : jsstring) : Lookup :=
  if bool_decide (type = js "image/jpeg") then Own [js "jpg"; js "jpeg"]
  else if bool_decide (type = js "image/png") then Own [js "png"]
  else if bool_decide (type = js "application/pdf") then Own [js "pdf"]
  else if Watermark.includes objectPrototypeKeys type then Inherited
  else Missing.

(** [validateDocument] returns, or stops on the TypeError of calling a
    missing [includes]. *)
Inductive Outcome : Type :=
  | Returns (r : ValidationResult)
  | ThrowsTypeError.

Definition defaultAllowedTypes : list jsstring :=
  [js "image/jpeg"; js "image/png"; js "image/jpg"; js "application/pdf"].

Section WithPlatform.
Context (P : Platform).

Definition validateDocument (file : option File) (options : DocumentOptions) : Outcome :=
  let required := default true (required options) in
  let maxSizeMB := default 10 (maxSizeMB options) in
  let allowedTypes := default defaultAllowedTypes (allowedTypes options) in
  let missing :=
    Returns {| isValid := negb required;
               errors := if required then [js "Document is required"] else [] |} in
  match file with
  | None => missing
  | Some file =>
      let size := N.of_nat (length (fileBytes file)) in
      if size =? 0 then missing
      else
        let errors1 :=
          if negb (Watermark.includes allowedTypes (fileType file))
          then [js "Invalid file type. Allowed: " ++ join (js ", ") allowedTypes]
          else [] in
        let maxSizeBytes := maxSizeMB * 1024 * 1024 in
        let errors2 :=
          if maxSizeBytes <? size
          then errors1 ++ [js "File size must not exceed " ++ numberToString maxSizeMB
                             ++ js "MB"]
          else errors1 in
        let parts := split 46 (fileName file) in
        let extension := toLowerCase P (nth (length parts - 1) parts []) in
        let finish errors :=
          Returns {| isValid := bool_decide (length errors = 0%nat); errors := errors |} in
        match extension with
        | [] => finish errors2
        | _ :: _ =>
            match validExtensions (fileType file) with
            | Own extensions =>
                if negb (Watermark.includes extensions extension)
                then finish (errors2 ++ [js "File extension does not match file type"])
                else finish errors2
            | Inherited => ThrowsTypeError
            | Missing => finish errors2
            end
        end
  end.

End WithPlatform.
End Validation.

Module Upload.

Inductive DocKey : Type :=
  | DrivingLicense | VehicleRegistration | InsuranceDocument | WorkPatent.

(** [DOCUMENT_CONFIG[docType].required] *)
Definition configRequired (docType : DocKey) : bool :=
  match docType with
  | WorkPatent => false
  | _ => true
  end.

Definition slot (docType : DocKey) (documents : Registration.Documents) : option File :=
  match docType with
  | DrivingLicense => Registration.drivingLicense documents
  | VehicleRegistration => Registration.vehicleRegistration documents
  | InsuranceDocument => Registration.insuranceDocument documents
  | WorkPatent => Registration.workPatent documents
  end.

(** [handleDocumentChange]: [{ ...prev, [docType]: { file, isProcessed: false } }] *)
Definition handleDocumentChange (docType : DocKey) (file : option File)
    (prev : Registration.Documents) : Registration.Documents :=
  {| Registration.drivingLicense :=
       match docType with DrivingLicense => file | _ => Registration.drivingLicense prev end;
     Registration.vehicleRegistration :=
       match docType with
       | VehicleRegistration => file
       | _ => Registration.vehicleRegistration prev
       end;
     Registration.insuranceDocument :=
       match docType with
       | InsuranceDocument => file
       | _ => Registration.insuranceDocument prev
       end;
     Registration.workPatent :=
       match docType with WorkPatent => file | _ => Registration.workPatent prev end |}.

(** How [handleFileSelect] ends: the documents are updated, the file is
    refused with field errors, or the validation threw. *)
Inductive Selection : Type :=
  | Stored (documents : Registration.Documents)
  | Refused (fieldErrors : list jsstring)
  | Crashed.

Definition handleFileSelect (P : Platform) (docType : DocKey) (file : option File)
    (documents : Registration.Documents) : Selection :=
  match file with
  | None => Stored (handleDocumentChange docType None documents)
  | Some f =>
      match Validation.validateDocument P (Some f)
              {| Validation.required := Some (configRequired docType);
                 Validation.maxSizeMB := Some 10;
                 Validation.allowedTypes :=
                   Some [js "image/jpeg"; js "image/png"; js "image/jpg";
                         js "application/pdf"] |} with
      | Validation.ThrowsTypeError => Crashed
      | Validation.Returns result =>
          if negb (Validation.isValid result) then Refused (Validation.errors result)
          else Stored (handleDocumentChange docType (Some f) documents)
      end
  end.

End Upload.

(** A 3-byte file named "scan.exe" that claims the type image/jpg. *)
Definition mislabelled : File :=
  {| fileName := js "scan.exe"; fileType := js "image/jpg";
     fileBytes := [x4d; x5a; x90] |}.

(** An empty text file. *)
Definition emptyText : File :=
  {| fileName := js "empty.txt"; fileType := js "text/plain"; fileBytes := [] |}.

Definition noDocuments : Registration.Documents :=
  {| Registration.drivingLicense := None;
     Registration.vehicleRegistration := None;
     Registration.insuranceDocument := None;
     Registration.workPatent := None |}.

(** A 2-byte file named "a.b" whose type is the string "constructor". *)
Definition prototypeTyped : File :=
  {| fileName := js "a.b"; fileType := js "constructor"; fileBytes := [x00; x01] |}.

(** * Proofs *)

(** ** The definitions at work *)

Example encode_Man : Base64.encode (js "Man") = js "TWFu".
Proof. reflexivity. Qed.

Example encode_Ma : Base64.encode (js "Ma") = js "TWE=".
Proof. reflexivity. Qed.

Example atob_forgiving : Base64.atob (js "TWFu TQ") = Ok (js "ManM").
Proof. reflexivity. Qed.

Example atob_rejects : Base64.atob (js "TWFuTQ=") = Throw InvalidCharacterError.
Proof. reflexivity. Qed.

Example textToBinary_ascii : Watermark.textToBinary (js "A{") = js "0100000101111011".
Proof. reflexivity. Qed.

Example textToBinary_euro : Watermark.textToBinary [8364] = js "10000010101100".
Proof. reflexivity. Qed.

Example arrayBufferToHex_bytes :
  Watermark.arrayBufferToHex [x00; x0f; xff; x10] = js "000fff10".
Proof. reflexivity. Qed.

Example stringify_pdf_flag :
  JSON.stringify [(js "purpose", VString (js "driver_registration"));
                  (js "requiresServerWatermark", VBool true)]
  = [123; 34] ++ js "purpose" ++ [34; 58; 34] ++ js "driver_registration" ++ [34; 44; 34]
      ++ js "requiresServerWatermark" ++ [34; 58] ++ js "true}".
Proof. reflexivity. Qed.

Example maskEmail_jane :
  Watermark.maskEmail (js "jane.doe@example.com") = js "j****e@e***com".
Proof. reflexivity. Qed.

Example regionSize_512 : Watermark.regionSize 512 512 = 51%nat.
Proof. reflexivity. Qed.

Example roundProgress_quarters :
  map (fun k => Registration.roundProgress k 4) [1; 2; 3; 4]%nat = [18; 35; 53; 70].
Proof. reflexivity. Qed.

(** Induction over a list three elements at a time, the stride of the
    base64 encoder. *)
Lemma list_ind3 {A} (P : list A -> Prop) :
  P [] -> (forall a, P [a]) -> (forall a b, P [a; b]) ->
  (forall a b c r, P r -> P (a :: b :: c :: r)) ->
  forall l, P l.
Proof.
  intros H0 H1 H2 H3.
  fix IH 1.
  intros [|a [|b [|c r]]]; [exact H0 | exact (H1 a) | exact (H2 a b) |].
  exact (H3 a b c r (IH r)).
Qed.

Module Base64Facts.
Import Base64.

Lemma sextets_range s : Forall isByte s -> Forall isSextet (sextets s).
Proof.
  induction s using list_ind3; intros Hs; cbn [sextets];
    repeat match goal with
           | H : Forall _ (_ :: _) |- _ => inversion H; subst; clear H
           end;
    repeat constructor; unfold isByte, isSextet in *; auto; lia.
Qed.

Lemma decode_sextets s : Forall isByte s -> decodeGroups (sextets s) = s.
Proof.
  induction s using list_ind3; intros Hs; cbn [sextets decodeGroups];
    repeat match goal with
           | H : Forall _ (_ :: _) |- _ => inversion H; subst; clear H
           end; unfold isByte in *; auto.
  - f_equal. lia.
  - f_equal; [lia|]. f_equal. lia.
  - rewrite IHs by assumption. f_equal; [lia|]. f_equal; [lia|]. f_equal. lia.
Qed.


(** A property checked on the 64 rows of the alphabet holds of every
    sextet. *)
Lemma sextet_cases (P : N -> bool) :
  forallb (fun n => P (N.of_nat n)) (seq 0 64) = true ->
  forall s, isSextet s -> P s = true.
Proof.
  intros H s Hs. rewrite forallb_forall in H.
  specialize (H (N.to_nat s)). rewrite N2Nat.id in H.
  apply H, in_seq. unfold isSextet in Hs. lia.
Qed.

Lemma decode_encodeSextet s : isSextet s -> decodeChar (encodeSextet s) = Some s.
Proof.
  intros Hs.
  pose (P := fun s => match decodeChar (encodeSextet s) with
                      | Some t => t =? s | None => false end).
  assert (HP : P s = true) by (apply sextet_cases; [vm_compute; reflexivity | exact Hs]).
  unfold P in HP. destruct (decodeChar (encodeSextet s)); [|discriminate].
  apply N.eqb_eq in HP. congruence.
Qed.

(** Whatever its argument, [encodeSextet] yields neither padding nor
    whitespace. *)
Lemma encodeSextet_plain s :
  encodeSextet s <> pad /\ isAsciiWhitespace (encodeSextet s) = false.
Proof.
  unfold encodeSextet.
  destruct (nth_in_or_default (N.to_nat s) alphabet 0) as [Hin | ->].
  - revert Hin. generalize (nth (N.to_nat s) alphabet 0). intros c Hin.
    assert (H : forallb (fun c => negb (c =? pad) && negb (isAsciiWhitespace c)) alphabet = true)
      by (vm_compute; reflexivity).
    rewrite forallb_forall in H. specialize (H c Hin).
    apply andb_true_iff in H as [H1 H2].
    apply negb_true_iff in H1, H2. apply N.eqb_neq in H1. auto.
  - split; [discriminate | reflexivity].
Qed.

Lemma decodeChars_encode ss :
  Forall isSextet ss -> decodeChars (map encodeSextet ss) = Some ss.
Proof.
  induction 1 as [|s ss Hs _ IH]; cbn [map decodeChars]; [reflexivity|].
  now rewrite decode_encodeSextet, IH.
Qed.

Lemma filter_whitespace_encoded ss k :
  List.filter (fun c => negb (isAsciiWhitespace c)) (map encodeSextet ss ++ repeat pad k)
  = map encodeSextet ss ++ repeat pad k.
Proof.
  apply forallb_filter_id. rewrite forallb_app. apply andb_true_iff. split.
  - apply forallb_forall. intros c Hc. apply in_map_iff in Hc as (s & <- & _).
    now rewrite (proj2 (encodeSextet_plain s)).
  - apply forallb_forall. intros c Hc. apply repeat_spec in Hc. now subst.
Qed.

Lemma removePadding_encoded ss k :
  (k <= 2)%nat -> removePadding (map encodeSextet ss ++ repeat pad k) = map encodeSextet ss.
Proof.
  intros Hk. unfold removePadding. rewrite rev_app_distr, rev_repeat.
  assert (Hhd : match rev (map encodeSextet ss) with
                 | c :: _ => c <> pad | [] => True end).
  { destruct ss as [|s ss _] using rev_ind; [exact I|].
    rewrite map_app, rev_app_distr. cbn. apply encodeSextet_plain. }
  destruct k as [|[|[|k]]]; [| | |lia]; cbn [repeat app].
  - rewrite app_nil_r.
    destruct (rev (map encodeSextet ss)) as [|c r] eqn:E; [reflexivity|].
    unfold pad in Hhd.
    destruct c as [|p]; [reflexivity|].
    repeat (destruct p as [p|p|]; try reflexivity); congruence.
  - destruct (rev (map encodeSextet ss)) as [|c r] eqn:E.
    + apply (f_equal (@rev N)) in E. now rewrite rev_involutive in E.
    + assert (E' : map encodeSextet ss = rev (c :: r))
        by (now rewrite <- E, rev_involutive).
      unfold pad in Hhd.
      destruct c as [|p]; [now rewrite E'|].
      repeat (destruct p as [p|p|]; try (now rewrite E')); congruence.
  - now rewrite rev_involutive.
Qed.

Lemma padding_repeat s : padding s = repeat pad ((3 - length s mod 3) mod 3).
Proof.
  unfold padding.
  assert (H : (length s mod 3 < 3)%nat) by (apply Nat.mod_upper_bound; lia).
  destruct (length s mod 3)%nat as [|[|[|n]]]; try reflexivity; lia.
Qed.

Lemma sextets_length s :
  (length (sextets s) + (3 - length s mod 3) mod 3 = 4 * ((length s + 2) / 3))%nat.
Proof.
  induction s using list_ind3; try reflexivity.
  cbn [sextets length].
  replace (S (S (S (length s)))) with (length s + 1 * 3)%nat by lia.
  rewrite Nat.Div0.mod_add.
  replace (length s + 1 * 3 + 2)%nat with (length s + 2 + 1 * 3)%nat by lia.
  rewrite Nat.div_add by lia. lia.
Qed.

Lemma btoa_bytes s : Forall isByte s -> btoa s = Ok (encode s).
Proof.
  intros Hs. unfold btoa.
  assert (Hall : forallb (fun c => c <=? 255) s = true).
  { apply forallb_forall. intros c Hc. rewrite Forall_forall in Hs.
    specialize (Hs c). unfold isByte in Hs. apply N.leb_le.
    assert (c < 256) by (apply Hs; now apply list_elem_of_In). lia. }
  now rewrite Hall.
Qed.

(** [atob] undoes the encoding of every byte string. *)
Lemma atob_encode s : Forall isByte s -> atob (encode s) = Ok s.
Proof.
  intros Hs.
  unfold atob, encode. rewrite padding_repeat, filter_whitespace_encoded.
  pose proof (sextets_length s) as Hlen.
  set (k := ((3 - length s mod 3) mod 3)%nat) in *.
  assert (Hk : (k <= 2)%nat).
  { subst k. pose proof (Nat.mod_upper_bound (3 - length s mod 3) 3). lia. }
  assert (H4 : (length (map encodeSextet (sextets s) ++ repeat pad k) mod 4 = 0)%nat).
  { rewrite length_app, length_map, repeat_length, Hlen.
    rewrite Nat.mul_comm. apply Nat.Div0.mod_mul. }
  rewrite H4. cbn [Nat.eqb]. rewrite removePadding_encoded by exact Hk.
  rewrite length_map.
  assert (H1 : (length (sextets s) mod 4 <> 1)%nat).
  { clearbody k. clear -Hlen Hk.
    generalize dependent (length (sextets s)).
    generalize ((length s + 2) / 3)%nat. intros m n E.
    pose proof (Nat.div_mod_eq n 4). pose proof (Nat.mod_upper_bound n 4). lia. }
  destruct (Nat.eqb_spec (length (sextets s) mod 4) 1) as [E|_]; [contradiction|].
  rewrite decodeChars_encode by (now apply sextets_range).
  now rewrite decode_sextets.
Qed.

End Base64Facts.

(** ** Bytes *)

Lemma byte_isByte b : isByte (Byte.to_N b).
Proof. unfold isByte. pose proof (Byte.to_N_bounded b). lia. Qed.

Lemma bytes_isByte bs : Forall isByte (map Byte.to_N bs).
Proof. apply Forall_map, Forall_forall. intros b _. apply byte_isByte. Qed.

Lemma toUint8_to_N b : toUint8 (Byte.to_N b) = b.
Proof.
  unfold toUint8. rewrite N.mod_small by apply byte_isByte.
  now rewrite Byte.of_to_N.
Qed.

Lemma map_toUint8_to_N bs : map toUint8 (map Byte.to_N bs) = bs.
Proof.
  induction bs as [|b bs IH]; cbn [map]; [reflexivity|].
  now rewrite toUint8_to_N, IH.
Qed.

Lemma btoa_of_bytes bs :
  Base64.btoa (map Byte.to_N bs) = Ok (Base64.encode (map Byte.to_N bs)).
Proof. apply Base64Facts.btoa_bytes, bytes_isByte. Qed.

Lemma atob_of_bytes bs :
  Base64.atob (Base64.encode (map Byte.to_N bs)) = Ok (map Byte.to_N bs).
Proof. apply Base64Facts.atob_encode, bytes_isByte. Qed.

(** ** The codec of [encryption.ts] *)

(** C4. For every byte sequence [b], the empty one included,
    [arrayBufferToBase64 b] returns a string and [base64ToArrayBuffer] of
    that string returns [b], byte for byte. *)
Theorem base64_round_trip (b : list byte) :
  exists s, Encryption.arrayBufferToBase64 b = Ok s
            /\ Encryption.base64ToArrayBuffer s = Ok b.
Proof.
  exists (Base64.encode (map Byte.to_N b)). split.
  - apply btoa_of_bytes.
  - unfold Encryption.base64ToArrayBuffer.
    now rewrite atob_of_bytes, map_toUint8_to_N.
Qed.

(** ** Hexadecimal digests and [hashEmail] *)










(** ** Splitting and data URLs *)

Lemma split_no_sep sep s : forallb (fun c => negb (c =? sep)) s = true -> split sep s = [s].
Proof.
  induction s as [|c s IH]; cbn [forallb split]; [reflexivity|].
  intros H. apply andb_true_iff in H as [Hc Hs].
  apply negb_true_iff in Hc. now rewrite Hc, IH.
Qed.

Lemma split_app_sep sep p q :
  forallb (fun c => negb (c =? sep)) p = true ->
  split sep (p ++ sep :: q) = p :: split sep q.
Proof.
  induction p as [|c p IH]; cbn [forallb split app].
  - intros _. now rewrite N.eqb_refl.
  - intros H. apply andb_true_iff in H as [Hc Hp].
    apply negb_true_iff in Hc. now rewrite Hc, IH.
Qed.

Lemma encodeSextet_in s : In (Base64.encodeSextet s) (0 :: Base64.alphabet).
Proof.
  unfold Base64.encodeSextet.
  destruct (nth_in_or_default (N.to_nat s) Base64.alphabet 0) as [H | ->];
    [now right | now left].
Qed.

Lemma encode_chars s :
  Forall (fun c => In c (0 :: Base64.pad :: Base64.alphabet)) (Base64.encode s).
Proof.
  unfold Base64.encode. apply Forall_app. split.
  - apply Forall_map, Forall_forall. intros x _.
    destruct (encodeSextet_in x) as [H | H]; [now left | now do 2 right].
  - unfold Base64.padding.
    destruct (length s mod 3)%nat as [|[|[|?]]]; repeat constructor; right; now left.
Qed.

Lemma encode_notComma s : forallb notComma (Base64.encode s) = true.
Proof.
  apply forallb_forall. intros c Hc.
  pose proof (encode_chars s) as H. rewrite Forall_forall in H.
  specialize (H c (proj2 (list_elem_of_In _ _) Hc)).
  assert (Hall : forallb notComma (0 :: Base64.pad :: Base64.alphabet) = true) by reflexivity.
  rewrite forallb_forall in Hall. now apply Hall.
Qed.

Lemma untilSemicolon_app mime rest :
  forallb mimeChar mime = true ->
  Watermark.untilSemicolon (mime ++ 59 :: rest) = Some mime.
Proof.
  induction mime as [|c m IH]; cbn [forallb app Watermark.untilSemicolon].
  - reflexivity.
  - intros H. apply andb_true_iff in H as [Hc Hm]. unfold mimeChar in Hc.
    apply andb_true_iff in Hc as [Hc Hlt]. apply andb_true_iff in Hc as [_ Hsemi].
    apply negb_true_iff in Hsemi, Hlt. now rewrite Hsemi, Hlt, IH.
Qed.

Lemma mimeChar_notComma mime : forallb mimeChar mime = true -> forallb notComma mime = true.
Proof.
  intros H. apply forallb_forall. intros c Hc. rewrite forallb_forall in H.
  specialize (H c Hc). unfold mimeChar in H.
  apply andb_true_iff in H as [H _]. now apply andb_true_iff in H as [H _].
Qed.

(** The two pieces [split(',')] finds in a well-formed data URL. *)
Lemma split_dataUrl mime payload :
  forallb notComma mime = true -> forallb notComma payload = true ->
  split 44 (js "data:" ++ mime ++ js ";base64," ++ payload)
  = [js "data:" ++ mime ++ js ";base64"; payload].
Proof.
  intros Hm Hp.
  replace (js "data:" ++ mime ++ js ";base64," ++ payload)
    with ((js "data:" ++ mime ++ js ";base64") ++ 44 :: payload)
    by (now rewrite <- !app_assoc).
  rewrite split_app_sep, (split_no_sep 44 payload); [reflexivity | exact Hp |].
  change (fun c => negb (c =? 44)) with notComma.
  rewrite !forallb_app, Hm. reflexivity.
Qed.

Lemma dataUrlToBlob_wellformed mime payload :
  forallb mimeChar mime = true -> forallb notComma payload = true ->
  Watermark.dataUrlToBlob (js "data:" ++ mime ++ js ";base64," ++ payload)
  = match Base64.atob payload with
    | Ok bstr => Ok (newBlob (map toUint8 bstr) mime)
    | Throw e => Throw e
    end.
Proof.
  intros Hm Hp. unfold Watermark.dataUrlToBlob.
  rewrite (split_dataUrl _ _ (mimeChar_notComma _ Hm) Hp). cbn [nth lookup list_lookup default from_option id].
  change (js "data:" ++ mime ++ js ";base64")
    with (100 :: 97 :: 116 :: 97 :: 58 :: mime ++ 59 :: js "base64").
  cbn [Watermark.mimeMatch N.eqb Pos.eqb].
  now rewrite (untilSemicolon_app _ _ Hm).
Qed.

Lemma dataUrlToBlob_encoded mime bytes :
  forallb mimeChar mime = true ->
  Watermark.dataUrlToBlob
    (js "data:" ++ mime ++ js ";base64," ++ Base64.encode (map Byte.to_N bytes))
  = Ok (newBlob bytes mime).
Proof.
  intros Hm. rewrite dataUrlToBlob_wellformed by (auto using encode_notComma).
  now rewrite atob_of_bytes, map_toUint8_to_N.
Qed.


(** ** [dataUrlToBlob] *)

Lemma atob_throws data e : Base64.atob data = Throw e -> e = InvalidCharacterError.
Proof.
  unfold Base64.atob.
  destruct (_ =? 1)%nat; [congruence|].
  destruct (Base64.decodeChars _); congruence.
Qed.

Lemma dataUrlToBlob_throws dataUrl e :
  Watermark.dataUrlToBlob dataUrl = Throw e -> e = InvalidCharacterError.
Proof.
  unfold Watermark.dataUrlToBlob.
  destruct (Base64.atob _) as [bstr|e'] eqn:E; [discriminate|].
  intros [= <-]. exact (atob_throws _ _ E).
Qed.

(** C8, as the code has it. [dataUrlToBlob] returns the atob-decoded bytes
    of the text after the first comma, with the media type found between
    "data:" and ";base64" (as the Blob constructor normalises it); it fails,
    with atob's InvalidCharacterError, when that text is not valid base64 or
    when there is no comma at all. A prefix without a colon-to-semicolon
    part is not an error: the media type is then
    application/octet-stream. *)
Theorem dataUrlToBlob_parses_or_defaults :
  (forall mime payload,
      forallb mimeChar mime = true -> forallb notComma payload = true ->
      Watermark.dataUrlToBlob (js "data:" ++ mime ++ js ";base64," ++ payload)
      = match Base64.atob payload with
        | Ok bstr => Ok (newBlob (map toUint8 bstr) mime)
        | Throw e => Throw e
        end)
  /\ (forall mime bytes,
        forallb mimeChar mime = true ->
        Watermark.dataUrlToBlob
          (js "data:" ++ mime ++ js ";base64," ++ Base64.encode (map Byte.to_N bytes))
        = Ok (newBlob bytes mime))
  /\ (forall prefix payload,
        forallb notComma prefix = true -> forallb notComma payload = true ->
        Watermark.mimeMatch prefix = None ->
        Watermark.dataUrlToBlob (prefix ++ js "," ++ payload)
        = match Base64.atob payload with
          | Ok bstr => Ok (newBlob (map toUint8 bstr) (js "application/octet-stream"))
          | Throw e => Throw e
          end)
  /\ (forall dataUrl,
        forallb notComma dataUrl = true ->
        Watermark.dataUrlToBlob dataUrl = Throw InvalidCharacterError)
  /\ (forall dataUrl e,
        Watermark.dataUrlToBlob dataUrl = Throw e -> e = InvalidCharacterError).
Proof.
  split; [exact dataUrlToBlob_wellformed|].
  split; [exact dataUrlToBlob_encoded|].
  split; [|split; [|exact dataUrlToBlob_throws]].
  - intros prefix payload Hp Hq Hm. unfold Watermark.dataUrlToBlob.
    cbn [js app]. change (N_of_ascii ",") with 44.
    rewrite split_app_sep, (split_no_sep 44 payload) by assumption.
    cbn [nth lookup list_lookup default from_option id]. now rewrite Hm.
  - intros dataUrl H. unfold Watermark.dataUrlToBlob.
    rewrite (split_no_sep 44 dataUrl) by assumption. reflexivity.
Qed.

Lemma dataUrlToBlob_parses_or_defaults_witness :
  forallb mimeChar (js "image/png") = true
  /\ Watermark.dataUrlToBlob
       (js "data:" ++ js "image/png" ++ js ";base64,"
           ++ Base64.encode (map Byte.to_N [x89; x50; x4e; x47]))
     = Ok (newBlob [x89; x50; x4e; x47] (js "image/png")).
Proof.
  split; [reflexivity|].
  apply (proj1 (proj2 dataUrlToBlob_parses_or_defaults)). reflexivity.
Defined.

(** C8 as stated fails: a malformed prefix is accepted. *)
Lemma dataUrlToBlob_accepts_malformed_prefix :
  Watermark.dataUrlToBlob (js "garbage,QUJD")
  = Ok {| blobBytes := [x41; x42; x43]; blobType := js "application/octet-stream" |}.
Proof. vm_compute. reflexivity. Qed.

(** ** [processDocument] *)

Lemma includes_imageTypes t :
  Watermark.includes Watermark.imageTypes t = true ->
  t = js "image/jpeg" \/ t = js "image/png" \/ t = js "image/jpg".
Proof.
  unfold Watermark.includes, Watermark.imageTypes. cbn [existsb].
  repeat case_bool_decide; subst; auto. discriminate.
Qed.

Lemma imageType_not_pdf t :
  Watermark.includes Watermark.imageTypes t = true ->
  bool_decide (t = js "application/pdf") = false.
Proof.
  intros H. apply bool_decide_eq_false.
  destruct (includes_imageTypes t H) as [-> | [-> | ->]]; discriminate.
Qed.

(** C5. A file whose type is none of image/jpeg, image/png, image/jpg and
    application/pdf makes [processDocument] throw an error whose message
    names the type; nothing is returned, and only the clock and the UUID
    source have been consulted. *)
Theorem processDocument_rejects_unsupported (P : Platform) (file : File)
    (options : Watermark.ProcessDocumentOptions) (w : world P) :
  fileType file <> js "image/jpeg" ->
  fileType file <> js "image/png" ->
  fileType file <> js "image/jpg" ->
  fileType file <> js "application/pdf" ->
  Watermark.processDocument P file options w
  = (Throw (JsError (js "Unsupported file type: " ++ fileType file)),
     (randomUUID P (newDate P w).2).2).
Proof.
  intros H1 H2 H3 H4. unfold Watermark.processDocument, bind, call.
  destruct (newDate P w) as [ts w1]. cbn [snd].
  destruct (randomUUID P w1) as [sid w2]. cbn [snd].
  rewrite bool_decide_eq_false_2 by assumption.
  unfold Watermark.includes, Watermark.imageTypes. cbn [existsb].
  rewrite !bool_decide_eq_false_2 by congruence. reflexivity.
Qed.

Lemma processDocument_rejects_unsupported_witness :
  Watermark.processDocument (Demo.platform true) Demo.text Demo.options 0%nat
  = (Throw (JsError (js "Unsupported file type: text/plain")), 2%nat).
Proof.
  apply (processDocument_rejects_unsupported (Demo.platform true) Demo.text Demo.options 0%nat);
    discriminate.
Defined.



(** ** The per-document step of [handleDocumentsSubmit] *)






(** ** [encryptData] *)

Lemma getRandomValues_draws (P : Platform) n (w : world P) :
  exists iv w', Encryption.getRandomValues P n w = (Ok iv, w') /\ length iv = n.
Proof.
  revert w. induction n as [|n IH]; intros w; cbn [Encryption.getRandomValues].
  - now exists [], w.
  - unfold bind, call. destruct (randomByte P w) as [b w1].
    destruct (IH w1) as (iv & w' & E & Hlen). rewrite E. unfold ret.
    exists (b :: iv), w'. split; [reflexivity | cbn; now rewrite Hlen].
Qed.

Lemma encryptData_package (P : Platform) data key (w w' : world P) iv :
  Encryption.getRandomValues P Encryption.IV_LENGTH w = (Ok iv, w') ->
  Encryption.encryptData P data key w
  = (Ok (Base64.encode
           (map Byte.to_N (iv ++ aesGcmEncrypt P key iv Encryption.TAG_LENGTH data))), w').
Proof.
  intros E. unfold Encryption.encryptData, bind, liftResult. rewrite E.
  unfold Encryption.arrayBufferToBase64. now rewrite btoa_of_bytes.
Qed.

Lemma base64ToArrayBuffer_encode bs :
  Encryption.base64ToArrayBuffer (Base64.encode (map Byte.to_N bs)) = Ok bs.
Proof.
  unfold Encryption.base64ToArrayBuffer. now rewrite atob_of_bytes, map_toUint8_to_N.
Qed.

(** C3. Every call of [encryptData] draws a new 12-byte IV from the random
    source and returns the base64 form of IV || ciphertext-with-tag: the
    decoded package starts with the IV and is 12 bytes longer than the
    ciphertext with its tag. A second call draws its own IV from the source
    as the first call left it, and different IVs give different
    packages. *)
Theorem encryptData_fresh_iv_package (P : Platform) (key : CryptoKey P)
    (data data' : list byte) (w : world P) :
  exists iv w1 package iv' w2 package',
    Encryption.getRandomValues P 12 w = (Ok iv, w1)
    /\ length iv = 12%nat
    /\ Encryption.encryptData P data key w = (Ok package, w1)
    /\ (let ciphertext := aesGcmEncrypt P key iv 128 data in
        Encryption.base64ToArrayBuffer package = Ok (iv ++ ciphertext)
        /\ take 12 (iv ++ ciphertext) = iv
        /\ length (iv ++ ciphertext) = (12 + length ciphertext)%nat)
    /\ Encryption.getRandomValues P 12 w1 = (Ok iv', w2)
    /\ length iv' = 12%nat
    /\ Encryption.encryptData P data' key w1 = (Ok package', w2)
    /\ Encryption.base64ToArrayBuffer package'
       = Ok (iv' ++ aesGcmEncrypt P key iv' 128 data')
    /\ (iv <> iv' -> package <> package').
Proof.
  destruct (getRandomValues_draws P 12 w) as (iv & w1 & E1 & L1).
  destruct (getRandomValues_draws P 12 w1) as (iv' & w2 & E2 & L2).
  exists iv, w1,
    (Base64.encode (map Byte.to_N (iv ++ aesGcmEncrypt P key iv 128 data))), iv', w2,
    (Base64.encode (map Byte.to_N (iv' ++ aesGcmEncrypt P key iv' 128 data'))).
  split; [exact E1|]. split; [exact L1|].
  split; [exact (encryptData_package P data key w w1 iv E1)|].
  split; [|split; [exact E2|split; [exact L2|split;
    [exact (encryptData_package P data' key w1 w2 iv' E2)|split]]]].
  - cbv zeta. split; [apply base64ToArrayBuffer_encode|]. split.
    + rewrite take_app_length'; [reflexivity | now symmetry].
    + rewrite length_app, L1. reflexivity.
  - apply base64ToArrayBuffer_encode.
  - intros Hne Heq.
    pose proof (base64ToArrayBuffer_encode (iv ++ aesGcmEncrypt P key iv 128 data)) as D1.
    pose proof (base64ToArrayBuffer_encode (iv' ++ aesGcmEncrypt P key iv' 128 data')) as D2.
    rewrite Heq, D2 in D1. injection D1 as D1.
    apply (f_equal (take 12)) in D1.
    rewrite !take_app_length' in D1 by (now symmetry). congruence.
Qed.

Lemma encryptData_fresh_iv_package_witness :
  exists package package',
    Encryption.encryptData (Demo.platform true) [x68; x69] [x01; x02] 0%nat
      = (Ok package, 12%nat)
    /\ Encryption.encryptData (Demo.platform true) [x68; x69] [x01; x02] 12%nat
      = (Ok package', 24%nat)
    /\ package <> package'.
Proof.
  destruct (encryptData_fresh_iv_package (Demo.platform true) [x01; x02] [x68; x69] [x68; x69] 0%nat)
    as (iv & w1 & package & iv' & w2 & package' & E1 & _ & Enc1 & _ & E2 & _ & Enc2 & _ & Hne).
  vm_compute in E1. injection E1 as <- <-.
  vm_compute in E2. injection E2 as <- <-.
  exists package, package'. split; [exact Enc1|]. split; [exact Enc2|].
  apply Hne. discriminate.
Defined.

(** ** The email enters the metadata through its hash only *)

Lemma imageMetadata_by_hash (P : Platform) (o1 o2 : Watermark.WatermarkOptions) :
  Watermark.sessionId o1 = Watermark.sessionId o2 ->
  Watermark.timestamp o1 = Watermark.timestamp o2 ->
  Watermark.hashEmail P (Watermark.email o1) = Watermark.hashEmail P (Watermark.email o2) ->
  Watermark.imageMetadata P o1 = Watermark.imageMetadata P o2.
Proof. intros H1 H2 H3. unfold Watermark.imageMetadata. now rewrite H1, H2, H3. Qed.

Lemma applyWatermark_by_hash (P : Platform) file (o1 o2 : Watermark.WatermarkOptions)
    (w : world P) :
  Watermark.imageMetadata P o1 = Watermark.imageMetadata P o2 ->
  agree WatermarkedDocument.metadataHash
    (Watermark.applyWatermark P file o1 w).1 (Watermark.applyWatermark P file o2 w).1.
Proof.
  intros Hm. unfold Watermark.applyWatermark, bind, call, liftResult, ret, throw.
  destruct (negb (Watermark.includes Watermark.imageTypes (fileType file)));
    [reflexivity|].
  destruct (loadImage P file w) as [[image|] w1]; [|reflexivity].
  destruct (getContext2d P w1) as [[|] w2]; [|reflexivity]. cbn [negb].
  rewrite Hm.
  destruct (Watermark.applyInvisibleWatermark image _ _ _) as [ctx1|e]; [|reflexivity].
  destruct (default true (Watermark.visibleWatermark o1)),
           (default true (Watermark.visibleWatermark o2));
    repeat match goal with
           | |- context [applyVisibleWatermark P ?t ?o ?c ?w] =>
               destruct (applyVisibleWatermark P t o c w)
           end; reflexivity.
Qed.

Lemma applyWatermark_returns (P : Platform) file o (w w' : world P) d :
  Watermark.applyWatermark P file o w = (Ok d, w') ->
  exists canvas,
    WatermarkedDocument.data d = Watermark.toDataURL P canvas (WatermarkedDocument.mimeType d)
    /\ (WatermarkedDocument.mimeType d = js "image/png"
        \/ WatermarkedDocument.mimeType d = js "image/jpeg")
    /\ WatermarkedDocument.metadataHash d
       = Watermark.generateMetadataHash P (Watermark.imageMetadata P o)
    /\ WatermarkedDocument.originalName d = fileName file.
Proof.
  unfold Watermark.applyWatermark, bind, call, liftResult, ret, throw.
  destruct (negb (Watermark.includes Watermark.imageTypes (fileType file)));
    [discriminate|].
  destruct (loadImage P file w) as [[image|] w1]; [|discriminate].
  destruct (getContext2d P w1) as [[|] w2]; [|discriminate]. cbn [negb].
  destruct (Watermark.applyInvisibleWatermark image _ _ _) as [ctx1|e]; [|discriminate].
  assert (Hmime : forall t : jsstring,
             (if bool_decide (t = js "image/png") then js "image/png" else js "image/jpeg")
             = js "image/png"
             \/ (if bool_decide (t = js "image/png") then js "image/png" else js "image/jpeg")
                = js "image/jpeg")
    by (intros t; case_bool_decide; auto).
  destruct (default true (Watermark.visibleWatermark o)).
  - destruct (applyVisibleWatermark P _ _ ctx1 w2) as [ctx2 w3].
    intros [= <- <-]. exists ctx2. cbn. auto.
  - intros [= <- <-]. exists ctx1. cbn. auto.
Qed.

Lemma toDataURL_parses (P : Platform) canvas mime :
  mime = js "image/png" \/ mime = js "image/jpeg" ->
  exists blob, Watermark.dataUrlToBlob (Watermark.toDataURL P canvas mime) = Ok blob.
Proof.
  intros Hmime. unfold Watermark.toDataURL.
  destruct ((cwidth canvas =? 0)%nat || (cheight canvas =? 0)%nat).
  - eexists. vm_compute. reflexivity.
  - eexists. apply dataUrlToBlob_encoded. now destruct Hmime as [-> | ->].
Qed.

(** C6. The metadata object that is serialized and embedded depends on the
    submitter's email through [hashEmail] only: two emails with the same
    hash give the same metadata object, the same embedded bits, the same
    pixels after embedding and the same metadataHash, in [applyWatermark]
    and in [processDocument]. *)
Theorem metadata_depends_on_email_hash_only (P : Platform) (email1 email2 : jsstring) :
  Watermark.hashEmail P email1 = Watermark.hashEmail P email2 ->
  (forall sessionId timestamp v1 t1 p1 v2 t2 p2,
      let o1 := {| Watermark.sessionId := sessionId; Watermark.email := email1;
                   Watermark.timestamp := timestamp; Watermark.visibleWatermark := v1;
                   Watermark.watermarkText := t1; Watermark.opacity := p1 |} in
      let o2 := {| Watermark.sessionId := sessionId; Watermark.email := email2;
                   Watermark.timestamp := timestamp; Watermark.visibleWatermark := v2;
                   Watermark.watermarkText := t2; Watermark.opacity := p2 |} in
      Watermark.imageMetadata P o1 = Watermark.imageMetadata P o2
      /\ Watermark.textToBinary (JSON.stringify (Watermark.imageMetadata P o1))
         = Watermark.textToBinary (JSON.stringify (Watermark.imageMetadata P o2))
      /\ (forall ctx width height,
            Watermark.applyInvisibleWatermark ctx (Watermark.imageMetadata P o1) width height
            = Watermark.applyInvisibleWatermark ctx (Watermark.imageMetadata P o2) width height)
      /\ Watermark.generateMetadataHash P (Watermark.imageMetadata P o1)
         = Watermark.generateMetadataHash P (Watermark.imageMetadata P o2)
      /\ (forall file w,
            agree WatermarkedDocument.metadataHash
              (Watermark.applyWatermark P file o1 w).1
              (Watermark.applyWatermark P file o2 w).1))
  /\ (forall file documentType visible invisible w,
        agree ProcessedDocument.metadataHash
          (Watermark.processDocument P file
             {| Watermark.userEmail := email1; Watermark.documentType := documentType;
                Watermark.addVisibleWatermark := visible;
                Watermark.addInvisibleWatermark := invisible |} w).1
          (Watermark.processDocument P file
             {| Watermark.userEmail := email2; Watermark.documentType := documentType;
                Watermark.addVisibleWatermark := visible;
                Watermark.addInvisibleWatermark := invisible |} w).1).
Proof.
  intros Hhash. split.
  - intros sessionId timestamp v1 t1 p1 v2 t2 p2 o1 o2.
    assert (Hm : Watermark.imageMetadata P o1 = Watermark.imageMetadata P o2)
      by (now apply imageMetadata_by_hash).
    split; [exact Hm|]. rewrite Hm.
    split; [reflexivity|]. split; [reflexivity|]. split; [reflexivity|].
    intros file w. apply applyWatermark_by_hash. now rewrite Hm.
  - intros file documentType visible invisible w.
    unfold Watermark.processDocument, bind, call.
    cbn [Watermark.userEmail Watermark.addVisibleWatermark].
    destruct (newDate P w) as [ts w1]. destruct (randomUUID P w1) as [sid w2].
    destruct (bool_decide (fileType file = js "application/pdf")).
    + unfold Watermark.applyPdfWatermark, bind, liftResult, ret.
      destruct (Watermark.arrayBufferToBase64 (fileBytes file)) as [b64|e]; [|reflexivity].
      cbn [Watermark.pdfData].
      destruct (Watermark.dataUrlToBlob _); reflexivity.
    + destruct (Watermark.includes Watermark.imageTypes (fileType file)); [|reflexivity].
      match goal with
      | |- agree _ (let (_, _) := Watermark.applyWatermark P file ?a w2 in _).1
                   (let (_, _) := Watermark.applyWatermark P file ?b w2 in _).1 =>
          pose proof (applyWatermark_by_hash P file a b w2
                        (imageMetadata_by_hash P a b eq_refl eq_refl Hhash)) as Hag;
          destruct (Watermark.applyWatermark P file a w2) as [[d1|e1] wa] eqn:E1;
          destruct (Watermark.applyWatermark P file b w2) as [[d2|e2] wb] eqn:E2
      end; cbn [fst agree] in Hag |- *; try contradiction; [|exact Hag].
      unfold liftResult, ret.
      destruct (applyWatermark_returns P file _ w2 wa d1 E1) as (c1 & D1 & M1 & _).
      destruct (applyWatermark_returns P file _ w2 wb d2 E2) as (c2 & D2 & M2 & _).
      destruct (toDataURL_parses P c1 _ M1) as (b1 & B1).
      destruct (toDataURL_parses P c2 _ M2) as (b2 & B2).
      rewrite D1, B1, D2, B2. cbn. now rewrite Hag.
Qed.

Lemma metadata_depends_on_email_hash_only_witness :
  Watermark.hashEmail (Demo.platform true) (js "Jane.Doe@Example.COM")
    = Watermark.hashEmail (Demo.platform true) (js "jane.doe@example.com")
  /\ agree ProcessedDocument.metadataHash
       (Watermark.processDocument (Demo.platform true) Demo.jpeg
          {| Watermark.userEmail := js "Jane.Doe@Example.COM";
             Watermark.documentType := js "drivingLicense";
             Watermark.addVisibleWatermark := Some true;
             Watermark.addInvisibleWatermark := Some true |} 0%nat).1
       (Watermark.processDocument (Demo.platform true) Demo.jpeg
          {| Watermark.userEmail := js "jane.doe@example.com";
             Watermark.documentType := js "drivingLicense";
             Watermark.addVisibleWatermark := Some true;
             Watermark.addInvisibleWatermark := Some true |} 0%nat).1.
Proof.
  split; [reflexivity|].
  apply (proj2 (metadata_depends_on_email_hash_only (Demo.platform true)
                  (js "Jane.Doe@Example.COM") (js "jane.doe@example.com") eq_refl)).
Defined.

(** ** The loop of [handleDocumentsSubmit] *)








(** ** Pixel access *)

Lemma length_flat_map_blocks {A B} (f : A -> list B) m l :
  (forall a, length (f a) = m) -> length (flat_map f l) = (length l * m)%nat.
Proof.
  intros Hm. induction l as [|a l IH]; [reflexivity|].
  cbn [flat_map length]. rewrite length_app, Hm, IH. lia.
Qed.

Lemma nth_flat_map_blocks {A B} (f : A -> list B) m l i j d a0 :
  (forall a, length (f a) = m) -> (i < length l)%nat -> (j < m)%nat ->
  nth (i * m + j) (flat_map f l) d = nth j (f (nth i l a0)) d.
Proof.
  intros Hm. revert i. induction l as [|a l IH]; intros i Hi Hj; cbn [length] in Hi; [lia|].
  cbn [flat_map]. destruct i as [|i]; cbn [nth Nat.mul Nat.add].
  - apply app_nth1. now rewrite Hm.
  - replace (m + i * m + j)%nat with (length (f a) + (i * m + j))%nat by (rewrite Hm; lia).
    rewrite app_nth2_plus. apply IH; lia.
Qed.

Lemma nth_map_seq {B} (g : nat -> B) n i d : (i < n)%nat -> nth i (map g (seq 0 n)) d = g i.
Proof.
  intros Hi. rewrite (nth_indep _ d (g 0%nat)) by (now rewrite length_map, length_seq).
  now rewrite map_nth, seq_nth.
Qed.

Lemma nth_blocks_seq {B} (g : nat -> list B) m n i j d :
  (forall a, length (g a) = m) -> (i < n)%nat -> (j < m)%nat ->
  nth (i * m + j) (flat_map g (seq 0 n)) d = nth j (g i) d.
Proof.
  intros Hm Hi Hj.
  rewrite (nth_flat_map_blocks g m (seq 0 n) i j d 0%nat Hm) by (now rewrite ?length_seq).
  now rewrite seq_nth.
Qed.

(** A bitmap given pixel by pixel, read back through its byte array. *)
Lemma nth_raster (g : nat -> nat -> nat -> byte) w h x y c :
  (x < w)%nat -> (y < h)%nat -> (c < 4)%nat ->
  nth (4 * (y * w + x) + c)
      (flat_map (fun y => flat_map (fun x => map (g x y) (seq 0 4)) (seq 0 w)) (seq 0 h))
      x00
  = g x y c.
Proof.
  intros Hx Hy Hc.
  replace (4 * (y * w + x) + c)%nat with (y * (w * 4) + (x * 4 + c))%nat by lia.
  assert (Hpix : forall y0 x0, length (map (g x0 y0) (seq 0 4)) = 4%nat)
    by (intros; now rewrite length_map, length_seq).
  assert (Hrow : forall y0,
             length (flat_map (fun x => map (g x y0) (seq 0 4)) (seq 0 w)) = (w * 4)%nat).
  { intros y0. rewrite (length_flat_map_blocks _ 4) by (intros; apply Hpix).
    now rewrite length_seq. }
  rewrite (nth_blocks_seq _ (w * 4) h y (x * 4 + c) x00 Hrow Hy) by nia.
  rewrite (nth_blocks_seq _ 4 w x c x00 (fun a => Hpix y a) Hx Hc).
  now apply nth_map_seq.
Qed.

Lemma getImageData_pixel cv sx sy sw sh img r c ch :
  getImageData cv sx sy sw sh = Ok img ->
  (r < sh)%nat -> (c < sw)%nat -> (ch < 4)%nat ->
  iwidth img = sw /\ iheight img = sh
  /\ length (data img) = (4 * (sh * sw))%nat
  /\ nth (4 * (r * sw + c) + ch) (data img) x00 = channelAt cv (sx + c) (sy + r) ch.
Proof.
  unfold getImageData. destruct ((sw =? 0)%nat || (sh =? 0)%nat); [discriminate|].
  intros [= <-] Hr Hc Hch. cbn [iwidth iheight data].
  split; [reflexivity|]. split; [reflexivity|]. split.
  - rewrite (length_flat_map_blocks _ (sw * 4)).
    + rewrite length_seq. lia.
    + intros a. rewrite (length_flat_map_blocks _ 4).
      * now rewrite length_seq.
      * intros; reflexivity.
  - exact (nth_raster (fun x y => channelAt cv (sx + x) (sy + y)) sw sh c r ch Hc Hr Hch).
Qed.

Lemma putImageData_pixel cv img dx dy x y c :
  (x < cwidth cv)%nat -> (y < cheight cv)%nat -> (c < 4)%nat ->
  channelAt (putImageData cv img dx dy) x y c
  = if (dx <=? x)%nat && (x <? dx + iwidth img)%nat
       && (dy <=? y)%nat && (y <? dy + iheight img)%nat
    then nth (4 * ((y - dy) * iwidth img + (x - dx)) + c) (data img) x00
    else channelAt cv x y c.
Proof.
  intros Hx Hy Hc. unfold channelAt at 1. cbn [putImageData cwidth cheight pixels].
  rewrite (proj2 (Nat.ltb_lt _ _) Hx), (proj2 (Nat.ltb_lt _ _) Hy). cbn [andb].
  exact (nth_raster _ _ _ x y c Hx Hy Hc).
Qed.

(** The embedding loop, read pixel by pixel: pixel [k] of the data gets
    character [k] of [binary] into the lowest bit of its blue byte. *)
Lemma nth_embedBits binary : forall data k c,
  (c < 4)%nat ->
  nth (4 * k + c) (Watermark.embedBits data binary) x00
  = if (c =? 2)%nat && (k <? length binary)%nat && (4 * k + 2 <? length data)%nat
    then Watermark.setLsb (nth (4 * k + 2) data x00)
                          (Watermark.parseDigit (nth k binary 0))
    else nth (4 * k + c) data x00.
Proof.
  induction binary as [|ch bs IH]; intros data k c Hc.
  - cbn [Watermark.embedBits length].
    replace (k <? 0)%nat with false by (symmetry; apply Nat.ltb_ge; lia).
    rewrite andb_false_r. reflexivity.
  - cbn [Watermark.embedBits].
    destruct data as [|r [|g [|b [|a rest]]]].
    + cbn [length]. rewrite andb_false_r. reflexivity.
    + cbn [length]. replace (4 * k + 2 <? 1)%nat with false
        by (symmetry; apply Nat.ltb_ge; lia).
      now rewrite andb_false_r.
    + cbn [length]. replace (4 * k + 2 <? 2)%nat with false
        by (symmetry; apply Nat.ltb_ge; lia).
      now rewrite andb_false_r.
    + destruct k as [|k].
      * destruct c as [|[|[|[|c]]]]; try lia; reflexivity.
      * replace (4 * S k + c)%nat with (S (S (S (S (4 * k + c))))) by lia.
        replace (4 * S k + 2)%nat with (S (S (S (S (4 * k + 2))))) by lia.
        cbn [nth length].
        replace (S (S (S (S (4 * k + 2)))) <? 3)%nat with false
          by (symmetry; apply Nat.ltb_ge; lia).
        rewrite andb_false_r. now destruct (4 * k + c)%nat.
    + destruct k as [|k].
      * destruct c as [|[|[|[|c]]]]; try lia; reflexivity.
      * replace (4 * S k + c)%nat with (S (S (S (S (4 * k + c))))) by lia.
        replace (4 * S k + 2)%nat with (S (S (S (S (4 * k + 2))))) by lia.
        cbn [nth length]. rewrite IH by exact Hc.
        replace (S (S (S (S (4 * k + 2)))) <? S (S (S (S (length rest)))))%nat
          with (4 * k + 2 <? length rest)%nat
          by (destruct (Nat.ltb_spec (4 * k + 2) (length rest));
              symmetry; [apply Nat.ltb_lt | apply Nat.ltb_ge]; lia).
        replace (S k <? S (length bs))%nat with (k <? length bs)%nat
          by (destruct (Nat.ltb_spec k (length bs));
              symmetry; [apply Nat.ltb_lt | apply Nat.ltb_ge]; lia).
        reflexivity.
Qed.

(** ** The invisible watermark *)

Lemma regionSize_le width height :
  (Watermark.regionSize width height <= width)%nat
  /\ (Watermark.regionSize width height <= height)%nat.
Proof.
  unfold Watermark.regionSize.
  pose proof (Nat.Div0.div_le_upper_bound width 10 width).
  pose proof (Nat.Div0.div_le_upper_bound height 10 height). lia.
Qed.

(** What [applyInvisibleWatermark] leaves in every byte of the canvas. *)
Lemma applyInvisibleWatermark_pixels (ctx : Canvas) (metadata : jsobject) :
  let binary := Watermark.textToBinary (JSON.stringify metadata) in
  (0 < Watermark.regionSize (cwidth ctx) (cheight ctx))%nat ->
  exists ctx',
    Watermark.applyInvisibleWatermark ctx metadata (cwidth ctx) (cheight ctx) = Ok ctx'
    /\ cwidth ctx' = cwidth ctx /\ cheight ctx' = cheight ctx
    /\ forall x y c, (x < cwidth ctx)%nat -> (y < cheight ctx)%nat -> (c < 4)%nat ->
         channelAt ctx' x y c
         = match regionIndex (cwidth ctx) (cheight ctx) x y with
           | Some k =>
               if (c =? 2)%nat && (k <? length binary)%nat
               then Watermark.setLsb (channelAt ctx x y 2)
                                     (Watermark.parseDigit (nth k binary 0))
               else channelAt ctx x y c
           | None => channelAt ctx x y c
           end.
Proof.
  intros binary Hrs. unfold Watermark.applyInvisibleWatermark, regionIndex.
  fold binary.
  pose proof (regionSize_le (cwidth ctx) (cheight ctx)) as [Hw Hh].
  set (rs := Watermark.regionSize (cwidth ctx) (cheight ctx)) in *.
  set (x0 := (cwidth ctx - rs)%nat). set (y0 := (cheight ctx - rs)%nat).
  destruct (getImageData ctx x0 y0 rs rs) as [img|e] eqn:Eimg.
  2:{ unfold getImageData in Eimg.
      destruct (Nat.eqb_spec rs 0); [lia | discriminate]. }
  eexists. split; [reflexivity|]. split; [reflexivity|]. split; [reflexivity|].
  intros x y c Hx Hy Hc.
  rewrite putImageData_pixel by assumption. cbn [iwidth iheight data].
  destruct (getImageData_pixel ctx x0 y0 rs rs img 0 0 0 Eimg Hrs Hrs ltac:(lia))
    as (Hiw & Hih & Hlen & _).
  rewrite Hiw, Hih.
  replace (x <? x0 + rs)%nat with (x <? cwidth ctx)%nat by (subst x0; f_equal; lia).
  replace (y <? y0 + rs)%nat with (y <? cheight ctx)%nat by (subst y0; f_equal; lia).
  destruct ((x0 <=? x)%nat && (x <? cwidth ctx)%nat
            && (y0 <=? y)%nat && (y <? cheight ctx)%nat) eqn:Ein; [|reflexivity].
  apply andb_true_iff in Ein as [Ein _]. apply andb_true_iff in Ein as [Ein Hy0].
  apply andb_true_iff in Ein as [Hx0 _].
  apply Nat.leb_le in Hx0, Hy0.
  assert (Hr : (y - y0 < rs)%nat) by (subst y0; lia).
  assert (Hcl : (x - x0 < rs)%nat) by (subst x0; lia).
  rewrite nth_embedBits by exact Hc.
  assert (Hk : (4 * ((y - y0) * rs + (x - x0)) + 2 <? length (data img))%nat = true).
  { apply Nat.ltb_lt. rewrite Hlen. nia. }
  rewrite Hk, andb_true_r.
  destruct (getImageData_pixel ctx x0 y0 rs rs img (y - y0) (x - x0) 2 Eimg Hr Hcl ltac:(lia))
    as (_ & _ & _ & Hblue).
  destruct (getImageData_pixel ctx x0 y0 rs rs img (y - y0) (x - x0) c Eimg Hr Hcl Hc)
    as (_ & _ & _ & Hchan).
  rewrite Hblue, Hchan.
  replace (x0 + (x - x0))%nat with x by lia.
  replace (y0 + (y - y0))%nat with y by lia.
  reflexivity.
Qed.

Lemma setLsb_value b (bit : bool) :
  Byte.to_N (Watermark.setLsb b (N.b2n bit)) = 2 * (Byte.to_N b / 2) + N.b2n bit.
Proof. destruct b, bit; vm_compute; reflexivity. Qed.

(** Writing a bit with [setLsb] changes the lowest bit and no other. *)
Lemma setLsb_bits b (bit : bool) j :
  N.testbit (Byte.to_N (Watermark.setLsb b (N.b2n bit))) j
  = if j =? 0 then bit else N.testbit (Byte.to_N b) j.
Proof.
  rewrite setLsb_value.
  destruct (N.eqb_spec j 0) as [-> | Hj].
  - apply N.testbit_0_r.
  - rewrite <- (N.succ_pred j Hj). generalize (N.pred j). intros i.
    rewrite N.testbit_succ_r, <- N.div2_bits. reflexivity.
Qed.

Lemma parseDigit_bitChar b : Watermark.parseDigit (bitChar b) = N.b2n b.
Proof. now destruct b. Qed.

(** Below 256, [toString(2)] padded to eight characters is the eight bits
    of the character, most significant first. *)
Lemma char_binary_8 c :
  c < 256 -> padStart 8 48 (toString2 c) = map bitChar (charBits8 c).
Proof.
  intros Hc.
  assert (H : forallb (fun n => bool_decide
                (padStart 8 48 (toString2 (N.of_nat n)) = map bitChar (charBits8 (N.of_nat n))))
              (seq 0 256) = true) by (vm_compute; reflexivity).
  rewrite forallb_forall in H. specialize (H (N.to_nat c)).
  rewrite N2Nat.id in H. apply bool_decide_eq_true in H; [exact H|].
  apply in_seq. lia.
Qed.

Lemma textToBinary_8 text :
  forallb (fun c => c <? 256) text = true ->
  Watermark.textToBinary text = map bitChar (payloadBits8 text).
Proof.
  unfold Watermark.textToBinary, payloadBits8.
  induction text as [|c text IH]; cbn [forallb flat_map]; [reflexivity|].
  intros H. apply andb_true_iff in H as [Hc Ht]. apply N.ltb_lt in Hc.
  now rewrite map_app, char_binary_8, IH.
Qed.

Lemma payloadBits8_length text : length (payloadBits8 text) = (8 * length text)%nat.
Proof.
  unfold payloadBits8. rewrite (length_flat_map_blocks _ 8); [lia|].
  intros; reflexivity.
Qed.

Lemma stringify_length metadata : (2 <= length (JSON.stringify metadata))%nat.
Proof. unfold JSON.stringify. rewrite !length_app. cbn. lia. Qed.

Lemma embedsPayload_of_binary (ctx : Canvas) (metadata : jsobject) (bits : list bool) :
  Watermark.textToBinary (JSON.stringify metadata) = map bitChar bits ->
  (0 < Watermark.regionSize (cwidth ctx) (cheight ctx))%nat ->
  exists ctx',
    Watermark.applyInvisibleWatermark ctx metadata (cwidth ctx) (cheight ctx) = Ok ctx'
    /\ embedsPayload bits ctx ctx'.
Proof.
  intros Hbin Hrs.
  destruct (applyInvisibleWatermark_pixels ctx metadata Hrs) as (ctx' & E & Hw & Hh & Hpix).
  exists ctx'. split; [exact E|]. split; [exact Hw|]. split; [exact Hh|].
  intros x y c Hx Hy Hc. specialize (Hpix x y c Hx Hy Hc).
  rewrite Hbin, length_map in Hpix.
  destruct (regionIndex (cwidth ctx) (cheight ctx) x y) as [k|]; [|exact Hpix].
  destruct (Nat.eqb_spec c 2) as [-> | Hc2]; [|exact Hpix]. cbn [andb] in *.
  destruct (Nat.ltb_spec k (length bits)) as [Hk | Hk]; [|exact Hpix].
  intros j. rewrite Hpix.
  rewrite (nth_indep _ 0 (bitChar false)) by (now rewrite length_map).
  rewrite map_nth, parseDigit_bitChar. apply setLsb_bits.
Qed.

(** C2, as the code has it. For every canvas and every metadata object
    whose serialized text has only characters below U+0100 (as has every
    metadata object [processDocument] builds), of B = 8 x length bits, when
    the reserved region has at least B pixels: [applyInvisibleWatermark]
    returns a canvas of the same size in which the blue byte of pixel [k] of
    the region, for [k < B], has bit [k] of the text (eight bits per
    character, most significant first) as its lowest bit and its other bits
    unchanged, and every other byte of every pixel is unchanged. *)
Theorem invisible_watermark_embeds_payload (ctx : Canvas) (metadata : jsobject) :
  let text := JSON.stringify metadata in
  let regionSize := Watermark.regionSize (cwidth ctx) (cheight ctx) in
  forallb (fun c => c <? 256) text = true ->
  (8 * length text <= regionSize * regionSize)%nat ->
  exists ctx',
    Watermark.applyInvisibleWatermark ctx metadata (cwidth ctx) (cheight ctx) = Ok ctx'
    /\ Watermark.textToBinary text = map bitChar (payloadBits8 text)
    /\ length (payloadBits8 text) = (8 * length text)%nat
    /\ embedsPayload (payloadBits8 text) ctx ctx'.
Proof.
  intros text regionSize Hlatin Hcap.
  pose proof (stringify_length metadata) as Hlen. fold text in Hlen.
  assert (Hrs : (0 < regionSize)%nat) by nia.
  destruct (embedsPayload_of_binary ctx metadata (payloadBits8 text)
              (textToBinary_8 text Hlatin) Hrs) as (ctx' & E & Hemb).
  exists ctx'. split; [exact E|]. split; [exact (textToBinary_8 text Hlatin)|].
  split; [apply payloadBits8_length | exact Hemb].
Qed.

Lemma invisible_watermark_embeds_payload_witness :
  forallb (fun c => c <? 256) (JSON.stringify []) = true
  /\ (8 * length (JSON.stringify []) <= Watermark.regionSize 40 40 * Watermark.regionSize 40 40)%nat
  /\ exists ctx',
       Watermark.applyInvisibleWatermark (Demo.blank 40 40) [] 40 40 = Ok ctx'
       /\ embedsPayload (payloadBits8 (JSON.stringify [])) (Demo.blank 40 40) ctx'.
Proof.
  split; [reflexivity|]. split; [vm_compute; lia|].
  destruct (invisible_watermark_embeds_payload (Demo.blank 40 40) [])
    as (ctx' & E & _ & _ & Hemb); [reflexivity | vm_compute; lia |].
  exists ctx'. split; [exact E | exact Hemb].
Defined.

(** C2 as stated fails for a character above U+00FF: [textToBinary] gives
    the euro sign fourteen bits, so the bits written from there on are not
    those of an eight-bits-per-character encoding. Pixel 114 of the region
    gets 0 where that encoding has 1. *)
Lemma invisible_watermark_wide_character :
  let text := JSON.stringify euroMetadata in
  length text = 17%nat
  /\ length (Watermark.textToBinary text) = 142%nat
  /\ (8 * length text <= Watermark.regionSize 120 120 * Watermark.regionSize 120 120)%nat
  /\ exists ctx',
       Watermark.applyInvisibleWatermark (Demo.blank 120 120) euroMetadata 120 120 = Ok ctx'
       /\ ~ embedsPayload (payloadBits8 text) (Demo.blank 120 120) ctx'.
Proof.
  cbv zeta. split; [reflexivity|]. split; [reflexivity|]. split; [vm_compute; lia|].
  assert (Hrs : (0 < Watermark.regionSize (cwidth (Demo.blank 120 120))
                                        (cheight (Demo.blank 120 120)))%nat)
    by (vm_compute; lia).
  destruct (applyInvisibleWatermark_pixels (Demo.blank 120 120) euroMetadata Hrs)
    as (ctx' & E & _ & _ & Hpix).
  exists ctx'. split; [exact E|]. intros (_ & _ & Hemb).
  assert (Hx : (114 < cwidth (Demo.blank 120 120))%nat) by (cbn; lia).
  assert (Hy : (117 < cheight (Demo.blank 120 120))%nat) by (cbn; lia).
  specialize (Hpix 114%nat 117%nat 2%nat Hx Hy ltac:(lia)).
  specialize (Hemb 114%nat 117%nat 2%nat Hx Hy ltac:(lia)).
  assert (Hidx : regionIndex (cwidth (Demo.blank 120 120)) (cheight (Demo.blank 120 120))
                   114 117 = Some 114%nat) by (vm_compute; reflexivity).
  rewrite Hidx in Hpix, Hemb.
  assert (Hin : ((2 =? 2)%nat
                 && (114 <? length (payloadBits8 (JSON.stringify euroMetadata)))%nat) = true)
    by (vm_compute; reflexivity).
  rewrite Hin in Hemb. specialize (Hemb 0). rewrite Hpix in Hemb.
  vm_compute in Hemb. discriminate.
Qed.

(** * Further properties *)

(** ** The base64 helpers of [encryption.ts] *)

Lemma encode_length s : length (Base64.encode s) = (4 * ((length s + 2) / 3))%nat.
Proof.
  unfold Base64.encode.
  rewrite length_app, length_map, Base64Facts.padding_repeat, repeat_length.
  apply Base64Facts.sextets_length.
Qed.

Lemma encodeSextet_alphabet x : isSextet x -> In (Base64.encodeSextet x) Base64.alphabet.
Proof.
  intros Hx. unfold Base64.encodeSextet. apply nth_In.
  change (length Base64.alphabet) with 64%nat. unfold isSextet in Hx. lia.
Qed.

(** X1. [arrayBufferToBase64] never throws, and its output for [n] bytes
    has 4 * ceil(n / 3) characters: characters of the base64 alphabet
    followed by at most two padding characters. *)
Theorem arrayBufferToBase64_shape (buffer : list byte) :
  exists s body k,
    Encryption.arrayBufferToBase64 buffer = Ok s
    /\ length s = (4 * ((length buffer + 2) / 3))%nat
    /\ s = body ++ repeat Base64.pad k
    /\ (k <= 2)%nat
    /\ Forall (fun c => In c Base64.alphabet) body.
Proof.
  exists (Base64.encode (map Byte.to_N buffer)),
         (map Base64.encodeSextet (Base64.sextets (map Byte.to_N buffer))),
         ((3 - length (map Byte.to_N buffer) mod 3) mod 3)%nat.
  split; [apply btoa_of_bytes|]. split; [now rewrite encode_length, length_map|].
  split; [unfold Base64.encode; now rewrite Base64Facts.padding_repeat|]. split.
  - pose proof (Nat.mod_upper_bound (3 - length (map Byte.to_N buffer) mod 3) 3). lia.
  - apply Forall_map.
    eapply Forall_impl; [apply Base64Facts.sextets_range, bytes_isByte|].
    intros x Hx. now apply encodeSextet_alphabet.
Qed.

(** X2. [arrayBufferToBase64] is injective: different byte sequences never
    share an encoding. *)
Theorem arrayBufferToBase64_injective (b1 b2 : list byte) :
  Encryption.arrayBufferToBase64 b1 = Encryption.arrayBufferToBase64 b2 -> b1 = b2.
Proof.
  intros H. unfold Encryption.arrayBufferToBase64 in H.
  rewrite !btoa_of_bytes in H. injection H as H.
  pose proof (base64ToArrayBuffer_encode b1) as D1.
  rewrite H, base64ToArrayBuffer_encode in D1. congruence.
Qed.

Lemma arrayBufferToBase64_injective_witness :
  Encryption.arrayBufferToBase64 [x01; x02] = Encryption.arrayBufferToBase64 [x01; x02]
  /\ [x01; x02] = [x01; x02].
Proof.
  split; [reflexivity|].
  apply (arrayBufferToBase64_injective [x01; x02] [x01; x02]). reflexivity.
Defined.

Lemma atob_strip s : Base64.atob s = Base64.atob (stripWhitespace s).
Proof.
  unfold Base64.atob, stripWhitespace.
  replace (List.filter _ (List.filter (fun c => negb (Base64.isAsciiWhitespace c)) s))
    with (List.filter (fun c => negb (Base64.isAsciiWhitespace c)) s); [reflexivity|].
  induction s as [|c s IH]; [reflexivity|]. cbn [List.filter].
  destruct (negb (Base64.isAsciiWhitespace c)) eqn:E; [|exact IH].
  cbn [List.filter]. now rewrite E, <- IH.
Qed.

Lemma removePadding_plain ss :
  Base64.removePadding (map Base64.encodeSextet ss) = map Base64.encodeSextet ss.
Proof.
  pose proof (Base64Facts.removePadding_encoded ss 0 ltac:(lia)) as H.
  cbn [repeat] in H. now rewrite app_nil_r in H.
Qed.

(** Decoding works without the padding too. *)
Lemma atob_unpadded s :
  Forall isByte s -> Base64.atob (map Base64.encodeSextet (Base64.sextets s)) = Ok s.
Proof.
  intros Hs. unfold Base64.atob.
  pose proof (Base64Facts.filter_whitespace_encoded (Base64.sextets s) 0) as Hf.
  cbn [repeat] in Hf. rewrite app_nil_r in Hf. rewrite Hf.
  assert (Hd2 : (if (length (map Base64.encodeSextet (Base64.sextets s)) mod 4 =? 0)%nat
                 then Base64.removePadding (map Base64.encodeSextet (Base64.sextets s))
                 else map Base64.encodeSextet (Base64.sextets s))
                = map Base64.encodeSextet (Base64.sextets s))
    by (destruct (_ =? 0)%nat; [apply removePadding_plain | reflexivity]).
  rewrite Hd2, length_map.
  pose proof (Base64Facts.sextets_length s) as Hlen.
  assert (Hk : ((3 - length s mod 3) mod 3 <= 2)%nat)
    by (pose proof (Nat.mod_upper_bound (3 - length s mod 3) 3); lia).
  assert (H1 : (length (Base64.sextets s) mod 4 <> 1)%nat).
  { revert Hlen Hk. generalize ((3 - length s mod 3) mod 3)%nat.
    generalize (length (Base64.sextets s)). generalize ((length s + 2) / 3)%nat.
    intros m n k E Hk.
    pose proof (Nat.div_mod_eq n 4). pose proof (Nat.mod_upper_bound n 4). lia. }
  destruct (Nat.eqb_spec (length (Base64.sextets s) mod 4) 1) as [E|_]; [contradiction|].
  rewrite Base64Facts.decodeChars_encode by (now apply Base64Facts.sextets_range).
  now rewrite Base64Facts.decode_sextets.
Qed.

(** X3. [base64ToArrayBuffer] is forgiving: ASCII whitespace anywhere in
    the text is ignored and the padding may be missing; the bytes come back
    all the same. *)
Theorem base64ToArrayBuffer_forgiving (bytes : list byte) (s : jsstring) :
  stripWhitespace s = Base64.encode (map Byte.to_N bytes)
  \/ stripWhitespace s = map Base64.encodeSextet (Base64.sextets (map Byte.to_N bytes)) ->
  Encryption.base64ToArrayBuffer s = Ok bytes.
Proof.
  intros H. unfold Encryption.base64ToArrayBuffer. rewrite atob_strip.
  destruct H as [-> | ->].
  - now rewrite atob_of_bytes, map_toUint8_to_N.
  - rewrite atob_unpadded by apply bytes_isByte. now rewrite map_toUint8_to_N.
Qed.

Lemma base64ToArrayBuffer_forgiving_witness :
  Encryption.base64ToArrayBuffer (js "TW Fu" ++ [10] ++ js "TQ") = Ok [x4d; x61; x6e; x4d].
Proof.
  apply (base64ToArrayBuffer_forgiving [x4d; x61; x6e; x4d]). right. reflexivity.
Defined.

Lemma removePadding_keeps c d :
  In c d -> c <> Base64.pad -> In c (Base64.removePadding d).
Proof.
  intros Hin Hc. unfold Base64.removePadding, Base64.pad in *.
  assert (Hrev : In c (rev d)) by (now apply in_rev in Hin).
  destruct (rev d) as [|x r]; [exact Hin|].
  destruct (N.eq_dec x 61) as [-> | Hx61].
  - destruct Hrev as [<- | Hr]; [congruence|].
    destruct r as [|y r]; [destruct Hr|].
    destruct (N.eq_dec y 61) as [-> | Hy61].
    + destruct Hr as [<- | Hr]; [congruence | now apply in_rev in Hr].
    + assert (Hyr : In c (rev (y :: r))) by (now apply in_rev in Hr).
      destruct y as [|p]; [assumption|].
      repeat (destruct p as [p|p|]; try assumption); congruence.
  - destruct x as [|p]; [assumption|].
    repeat (destruct p as [p|p|]; try assumption); congruence.
Qed.

Lemma decodeChars_foreign c d :
  In c d -> Base64.decodeChar c = None -> Base64.decodeChars d = None.
Proof.
  induction d as [|x d IH]; [intros []|]. intros [-> | Hin] Hc; cbn [Base64.decodeChars].
  - now rewrite Hc.
  - rewrite (IH Hin Hc). now destruct (Base64.decodeChar x).
Qed.

Lemma atob_foreign (s : jsstring) (c : N) :
  In c s -> foreignChar c = true -> Base64.atob s = Throw InvalidCharacterError.
Proof.
  intros Hin Hc. unfold foreignChar in Hc.
  destruct (Base64.decodeChar c) eqn:Hdec; [discriminate|].
  apply andb_true_iff in Hc as [Hpad Hws].
  apply negb_true_iff, N.eqb_neq in Hpad.
  unfold Base64.atob.
  set (d1 := List.filter _ s).
  assert (H1 : In c d1) by (apply filter_In; auto).
  set (d2 := if (length d1 mod 4 =? 0)%nat then Base64.removePadding d1 else d1).
  assert (H2 : In c d2)
    by (subst d2; destruct (_ =? 0)%nat; [now apply removePadding_keeps | exact H1]).
  destruct (_ =? 1)%nat; [reflexivity|].
  now rewrite (decodeChars_foreign c d2 H2 Hdec).
Qed.

(** X4. A text containing a character that is neither a base64 character,
    nor padding, nor ASCII whitespace makes [base64ToArrayBuffer] throw
    InvalidCharacterError. *)
Theorem base64ToArrayBuffer_rejects_foreign (s : jsstring) (c : N) :
  In c s -> foreignChar c = true ->
  Encryption.base64ToArrayBuffer s = Throw InvalidCharacterError.
Proof.
  intros Hin Hc. unfold Encryption.base64ToArrayBuffer.
  now rewrite (atob_foreign s c Hin Hc).
Qed.

Lemma base64ToArrayBuffer_rejects_foreign_witness :
  Encryption.base64ToArrayBuffer (js "TWFu-TQ=") = Throw InvalidCharacterError.
Proof.
  apply (base64ToArrayBuffer_rejects_foreign (js "TWFu-TQ=") 45);
    [cbn; tauto | reflexivity].
Defined.

(** ** [encryptBase64], [encryptFile], keys, identifiers and hashes *)

Lemma existsb_comma s :
  existsb (fun c => c =? 44) s = negb (forallb notComma s).
Proof.
  induction s as [|c s IH]; [reflexivity|]. cbn [existsb forallb].
  rewrite IH. unfold notComma. now destruct (c =? 44), (forallb _ s).
Qed.

Lemma encryptBase64_content (P : Platform) prefix payload key (w : world P) :
  forallb notComma prefix = true -> forallb notComma payload = true ->
  EncryptionMore.encryptBase64 P (prefix ++ js "," ++ payload) key w
  = (x <- liftResult (Encryption.base64ToArrayBuffer payload) ;;
     Encryption.encryptData P x key) w
  /\ EncryptionMore.encryptBase64 P payload key w
     = (x <- liftResult (Encryption.base64ToArrayBuffer payload) ;;
        Encryption.encryptData P x key) w.
Proof.
  intros Hp Hq. unfold EncryptionMore.encryptBase64. split.
  - rewrite existsb_comma, forallb_app. cbn [js app forallb].
    change (notComma (N_of_ascii ",")) with false.
    rewrite andb_false_r. cbn [negb andb]. change (N_of_ascii ",") with 44.
    rewrite split_app_sep, (split_no_sep 44 payload) by assumption. reflexivity.
  - now rewrite existsb_comma, Hq.
Qed.

Lemma encryptBase64_dataUrl (P : Platform) (mime : jsstring) (bytes : list byte)
    (key : CryptoKey P) (w : world P) :
  forallb notComma mime = true ->
  EncryptionMore.encryptBase64 P
    (js "data:" ++ mime ++ js ";base64," ++ Base64.encode (map Byte.to_N bytes)) key w
  = Encryption.encryptData P bytes key w.
Proof.
  intros Hm.
  assert (Hprefix : forallb notComma (js "data:" ++ mime ++ js ";base64") = true)
    by (now rewrite !forallb_app, Hm).
  destruct (encryptBase64_content P (js "data:" ++ mime ++ js ";base64")
              (Base64.encode (map Byte.to_N bytes)) key w Hprefix (encode_notComma _))
    as [H1 _].
  replace (js "data:" ++ mime ++ js ";base64," ++ Base64.encode (map Byte.to_N bytes))
    with ((js "data:" ++ mime ++ js ";base64") ++ js ","
            ++ Base64.encode (map Byte.to_N bytes))
    by (now rewrite <- !app_assoc).
  rewrite H1. unfold bind, liftResult.
  now rewrite base64ToArrayBuffer_encode.
Qed.

(** X5. [encryptBase64] on the base64 text of some bytes, bare or behind
    a data-URL prefix, does exactly what [encryptData] does on the bytes:
    the same package from the same random draw. *)
Theorem encryptBase64_of_encoding (P : Platform) (mime : jsstring) (bytes : list byte)
    (key : CryptoKey P) (w : world P) :
  forallb notComma mime = true ->
  EncryptionMore.encryptBase64 P
    (js "data:" ++ mime ++ js ";base64," ++ Base64.encode (map Byte.to_N bytes)) key w
  = Encryption.encryptData P bytes key w
  /\ EncryptionMore.encryptBase64 P (Base64.encode (map Byte.to_N bytes)) key w
     = Encryption.encryptData P bytes key w.
Proof.
  intros Hm. split; [now apply encryptBase64_dataUrl|].
  destruct (encryptBase64_content P [] (Base64.encode (map Byte.to_N bytes)) key w
              eq_refl (encode_notComma _)) as [_ H2].
  rewrite H2. unfold bind, liftResult.
  now rewrite base64ToArrayBuffer_encode.
Qed.

Lemma encryptBase64_of_encoding_witness :
  forallb notComma (js "image/png") = true
  /\ EncryptionMore.encryptBase64 (Demo.platform true)
       (js "data:" ++ js "image/png" ++ js ";base64,"
          ++ Base64.encode (map Byte.to_N [x89; x50])) [x01] 0%nat
     = Encryption.encryptData (Demo.platform true) [x89; x50] [x01] 0%nat.
Proof.
  split; [reflexivity|].
  apply (proj1 (encryptBase64_of_encoding (Demo.platform true) (js "image/png")
                  [x89; x50] [x01] 0%nat eq_refl)).
Defined.

(** X6. When the text to decode holds a character foreign to base64,
    [encryptBase64] throws InvalidCharacterError before any IV is drawn:
    the random source is left as it was. *)
Theorem encryptBase64_rejects_before_drawing (P : Platform) (prefix payload : jsstring)
    (c : N) (key : CryptoKey P) (w : world P) :
  forallb notComma prefix = true -> forallb notComma payload = true ->
  In c payload -> foreignChar c = true ->
  EncryptionMore.encryptBase64 P (prefix ++ js "," ++ payload) key w
  = (Throw InvalidCharacterError, w)
  /\ EncryptionMore.encryptBase64 P payload key w = (Throw InvalidCharacterError, w).
Proof.
  intros Hp Hq Hin Hc.
  destruct (encryptBase64_content P prefix payload key w Hp Hq) as [H1 H2].
  rewrite H1, H2. unfold bind, liftResult.
  unfold Encryption.base64ToArrayBuffer.
  now rewrite (atob_foreign payload c Hin Hc).
Qed.

Lemma encryptBase64_rejects_before_drawing_witness :
  EncryptionMore.encryptBase64 (Demo.platform true) (js "data:x;base64,TW*u") [x01] 7%nat
  = (Throw InvalidCharacterError, 7%nat).
Proof.
  apply (proj1 (encryptBase64_rejects_before_drawing (Demo.platform true)
                  (js "data:x;base64") (js "TW*u") 42 [x01] 7%nat
                  eq_refl eq_refl ltac:(cbn; tauto) eq_refl)).
Defined.

(** X7. [encryptFile] encrypts the file's bytes under a fresh 12-byte IV,
    and reports the file's own name, type and size; for a file type without
    a comma it yields the package [encryptBase64] yields on the file read
    as a data URL. *)
Theorem encryptFile_package (P : Platform) (file : File) (key : CryptoKey P) (w : world P) :
  exists iv w' package,
    Encryption.getRandomValues P 12 w = (Ok iv, w')
    /\ EncryptionMore.encryptFile P file key w
       = (Ok {| EncryptionMore.encrypted := package;
                EncryptionMore.originalName := fileName file;
                EncryptionMore.mimeType := fileType file;
                EncryptionMore.size := N.of_nat (length (fileBytes file)) |}, w')
    /\ Encryption.base64ToArrayBuffer package
       = Ok (iv ++ aesGcmEncrypt P key iv 128 (fileBytes file))
    /\ (forallb notComma (fileType file) = true ->
        EncryptionMore.encryptBase64 P (readAsDataURL (fileType file) (fileBytes file)) key w
        = (Ok package, w')).
Proof.
  destruct (getRandomValues_draws P 12 w) as (iv & w' & E & _).
  exists iv, w',
    (Base64.encode (map Byte.to_N (iv ++ aesGcmEncrypt P key iv 128 (fileBytes file)))).
  pose proof (encryptData_package P (fileBytes file) key w w' iv E) as Hpkg.
  split; [exact E|]. split.
  - unfold EncryptionMore.encryptFile, bind. rewrite Hpkg. reflexivity.
  - split; [apply base64ToArrayBuffer_encode|].
    intros Ht. unfold readAsDataURL.
    case_bool_decide.
    + rewrite (encryptBase64_dataUrl P (js "application/octet-stream")
                 (fileBytes file) key w eq_refl).
      exact Hpkg.
    + rewrite (encryptBase64_dataUrl P (fileType file) (fileBytes file) key w Ht).
      exact Hpkg.
Qed.

Lemma encryptFile_package_witness :
  exists package w',
    EncryptionMore.encryptFile (Demo.platform true) Demo.jpeg [x01] 0%nat
    = (Ok {| EncryptionMore.encrypted := package;
             EncryptionMore.originalName := js "licence.jpg";
             EncryptionMore.mimeType := js "image/jpeg";
             EncryptionMore.size := 6 |}, w')
    /\ EncryptionMore.encryptBase64 (Demo.platform true)
         (readAsDataURL (js "image/jpeg") (fileBytes Demo.jpeg)) [x01] 0%nat
       = (Ok package, w').
Proof.
  destruct (encryptFile_package (Demo.platform true) Demo.jpeg [x01] 0%nat)
    as (iv & w' & package & _ & E & _ & H).
  exists package, w'. split; [exact E | exact (H eq_refl)].
Defined.

(** X8. A key exported with [exportKey] and imported again with
    [importKey] is imported from exactly the raw bytes that were exported;
    the transport text of an [n]-byte key has 4 * ceil(n / 3) characters. *)
Theorem importKey_exportKey (P : Platform)
    (exportRaw : CryptoKey P -> result (list byte))
    (importRaw : list byte -> result (CryptoKey P))
    (key : CryptoKey P) (raw : list byte) :
  exportRaw key = Ok raw ->
  exists keyBase64,
    EncryptionMore.exportKey P exportRaw key = Ok keyBase64
    /\ length keyBase64 = (4 * ((length raw + 2) / 3))%nat
    /\ EncryptionMore.importKey P importRaw keyBase64 = importRaw raw.
Proof.
  intros Hraw. exists (Base64.encode (map Byte.to_N raw)).
  unfold EncryptionMore.exportKey, EncryptionMore.importKey. rewrite Hraw.
  split; [apply btoa_of_bytes|]. split; [now rewrite encode_length, length_map|].
  now rewrite base64ToArrayBuffer_encode.
Qed.

Lemma importKey_exportKey_witness :
  exists keyBase64,
    EncryptionMore.exportKey (Demo.platform true) (fun k => Ok k) [x0a; x0b; x0c; x0d]
      = Ok keyBase64
    /\ EncryptionMore.importKey (Demo.platform true) (fun raw => Ok raw) keyBase64
       = Ok [x0a; x0b; x0c; x0d].
Proof.
  destruct (importKey_exportKey (Demo.platform true) (fun k => Ok k) (fun raw => Ok raw)
              [x0a; x0b; x0c; x0d] [x0a; x0b; x0c; x0d] eq_refl)
    as (s & E & _ & I).
  exists s. split; [exact E | exact I].
Defined.


(** X10. [hashData] returns the base64 text of the SHA-256 digest of the
    UTF-8 bytes: it never throws, it decodes back to the digest, and for an
    [n]-byte digest it has 4 * ceil(n / 3) characters. *)
Theorem hashData_base64_digest (P : Platform) (data : jsstring) :
  let digest := sha256 P (utf8 P data) in
  exists s,
    EncryptionMore.hashData P data = Ok s
    /\ Encryption.base64ToArrayBuffer s = Ok digest
    /\ length s = (4 * ((length digest + 2) / 3))%nat.
Proof.
  intros digest. exists (Base64.encode (map Byte.to_N digest)).
  split; [apply btoa_of_bytes|]. split; [apply base64ToArrayBuffer_encode|].
  now rewrite encode_length, length_map.
Qed.

(** ** The invisible watermark on every input *)

Lemma positiveToString2_binary p :
  Forall (fun c => c = 48 \/ c = 49) (positiveToString2 p).
Proof.
  induction p as [q IH | q IH |]; cbn [positiveToString2].
  - apply Forall_app. split; [exact IH | constructor; [auto | constructor]].
  - apply Forall_app. split; [exact IH | constructor; [auto | constructor]].
  - constructor; [auto | constructor].
Qed.

Lemma textToBinary_binary text :
  Forall (fun c => c = 48 \/ c = 49) (Watermark.textToBinary text).
Proof.
  unfold Watermark.textToBinary. induction text as [|c text IH]; [constructor|].
  cbn [flat_map]. apply Forall_app. split; [|exact IH].
  unfold padStart. apply Forall_app. split.
  - apply Forall_forall. intros x Hx. apply list_elem_of_In, repeat_spec in Hx. auto.
  - destruct c; [constructor; [auto | constructor] | apply positiveToString2_binary].
Qed.

Lemma textToBinary_bitChar text :
  Watermark.textToBinary text = map bitChar (binaryBits text).
Proof.
  unfold binaryBits. pose proof (textToBinary_binary text) as H.
  induction H as [|c l [-> | ->] _ IH]; cbn [map]; [reflexivity | |]; now rewrite <- IH.
Qed.

Lemma regionSize_positive width height :
  (0 < Watermark.regionSize width height)%nat <-> (10 <= width /\ 10 <= height)%nat.
Proof.
  unfold Watermark.regionSize.
  pose proof (Nat.div_mod_eq width 10). pose proof (Nat.mod_upper_bound width 10).
  pose proof (Nat.div_mod_eq height 10). pose proof (Nat.mod_upper_bound height 10).
  lia.
Qed.

Lemma regionIndex_capacity width height x y k :
  regionIndex width height x y = Some k ->
  (k < Watermark.regionSize width height * Watermark.regionSize width height)%nat.
Proof.
  unfold regionIndex. pose proof (regionSize_le width height) as [Hw Hh].
  set (rs := Watermark.regionSize width height) in *.
  destruct (_ && _) eqn:E; [|discriminate]. intros [= <-].
  repeat (apply andb_true_iff in E as [E ?]).
  repeat match goal with
         | H : (_ <=? _)%nat = true |- _ => apply Nat.leb_le in H
         | H : (_ <? _)%nat = true |- _ => apply Nat.ltb_lt in H
         end.
  nia.
Qed.

(** X11. On every canvas of at least 10 x 10 pixels and for every metadata
    object, wide characters included, [applyInvisibleWatermark] succeeds and
    writes the characters of [textToBinary(JSON.stringify(metadata))], one
    per pixel in raster order, into the lowest blue bit of the region's
    pixels; all other bits are kept. The region holds regionSize^2 pixels:
    characters beyond that are dropped without an error. *)
Theorem invisible_watermark_any_metadata (ctx : Canvas) (metadata : jsobject) :
  (10 <= cwidth ctx)%nat -> (10 <= cheight ctx)%nat ->
  let regionSize := Watermark.regionSize (cwidth ctx) (cheight ctx) in
  exists ctx',
    Watermark.applyInvisibleWatermark ctx metadata (cwidth ctx) (cheight ctx) = Ok ctx'
    /\ Watermark.textToBinary (JSON.stringify metadata)
       = map bitChar (binaryBits (JSON.stringify metadata))
    /\ embedsPayload (binaryBits (JSON.stringify metadata)) ctx ctx'
    /\ (forall x y k, regionIndex (cwidth ctx) (cheight ctx) x y = Some k ->
          (k < regionSize * regionSize)%nat).
Proof.
  intros Hw Hh regionSize.
  assert (Hrs : (0 < Watermark.regionSize (cwidth ctx) (cheight ctx))%nat)
    by (now apply regionSize_positive).
  destruct (embedsPayload_of_binary ctx metadata _
              (textToBinary_bitChar (JSON.stringify metadata)) Hrs) as (ctx' & E & Hemb).
  exists ctx'. split; [exact E|]. split; [apply textToBinary_bitChar|].
  split; [exact Hemb|]. intros x y k. apply regionIndex_capacity.
Qed.

Lemma invisible_watermark_any_metadata_witness :
  exists ctx',
    Watermark.applyInvisibleWatermark (Demo.blank 40 40) euroMetadata 40 40 = Ok ctx'
    /\ embedsPayload (binaryBits (JSON.stringify euroMetadata)) (Demo.blank 40 40) ctx'.
Proof.
  destruct (invisible_watermark_any_metadata (Demo.blank 40 40) euroMetadata)
    as (ctx' & E & _ & Hemb & _); [cbn; lia | cbn; lia |].
  exists ctx'. split; [exact E | exact Hemb].
Defined.

Lemma applyInvisibleWatermark_small (ctx : Canvas) metadata width height :
  (width < 10 \/ height < 10)%nat ->
  Watermark.applyInvisibleWatermark ctx metadata width height = Throw IndexSizeError.
Proof.
  intros Hsmall. unfold Watermark.applyInvisibleWatermark.
  assert (E : Watermark.regionSize width height = 0%nat).
  { pose proof (proj1 (regionSize_positive width height)). lia. }
  rewrite E. reflexivity.
Qed.

(** X12. An image decoded to fewer than 10 pixels in width or in height
    leaves a reserved region of size 0: [getImageData] raises
    IndexSizeError, and [processDocument] throws it for a JPEG/PNG file
    even though the 2D context is available. *)
Theorem processDocument_small_image (P : Platform) (file : File)
    (options : Watermark.ProcessDocumentOptions)
    (w w1 w2 w3 w4 : world P) timestamp sessionId image :
  Watermark.includes Watermark.imageTypes (fileType file) = true ->
  newDate P w = (timestamp, w1) ->
  randomUUID P w1 = (sessionId, w2) ->
  loadImage P file w2 = (Some image, w3) ->
  getContext2d P w3 = (true, w4) ->
  (cwidth image < 10 \/ cheight image < 10)%nat ->
  (forall metadata,
      Watermark.applyInvisibleWatermark image metadata (cwidth image) (cheight image)
      = Throw IndexSizeError)
  /\ Watermark.processDocument P file options w = (Throw IndexSizeError, w4).
Proof.
  intros Himg Hdate Huuid Hload Hctx Hsmall.
  split; [intros metadata; now apply applyInvisibleWatermark_small|].
  unfold Watermark.processDocument, bind, call.
  rewrite Hdate, Huuid, (imageType_not_pdf _ Himg), Himg.
  unfold Watermark.applyWatermark, bind, call, liftResult.
  cbn [Watermark.visibleWatermark Watermark.opacity default from_option id].
  rewrite Himg. cbn [negb]. rewrite Hload, Hctx. cbn [negb].
  now rewrite applyInvisibleWatermark_small.
Qed.

Lemma processDocument_small_image_witness :
  Watermark.processDocument tinyPlatform Demo.jpeg Demo.options 0%nat
  = (Throw IndexSizeError, 2%nat).
Proof.
  apply (proj2 (processDocument_small_image tinyPlatform Demo.jpeg Demo.options
                  0%nat 1%nat 2%nat 2%nat 2%nat 1700000000000
                  (js "3f2b8c1e-5d4a-4c6b-9e7f-0a1b2c3d4e5f") (Demo.blank 8 8)
                  eq_refl eq_refl eq_refl eq_refl eq_refl ltac:(left; cbn; lia))).
Defined.

Lemma to_N_inj (a b : byte) : Byte.to_N a = Byte.to_N b -> a = b.
Proof.
  intros H. pose proof (Byte.of_to_N a) as Ha. rewrite H, Byte.of_to_N in Ha. congruence.
Qed.

(** The blue byte of pixel [k] of the region after embedding, by bits. *)
Lemma applyInvisibleWatermark_blue (ctx : Canvas) (metadata : jsobject) :
  let bits := binaryBits (JSON.stringify metadata) in
  (0 < Watermark.regionSize (cwidth ctx) (cheight ctx))%nat ->
  exists ctx',
    Watermark.applyInvisibleWatermark ctx metadata (cwidth ctx) (cheight ctx) = Ok ctx'
    /\ cwidth ctx' = cwidth ctx /\ cheight ctx' = cheight ctx
    /\ forall x y c, (x < cwidth ctx)%nat -> (y < cheight ctx)%nat -> (c < 4)%nat ->
         channelAt ctx' x y c
         = match regionIndex (cwidth ctx) (cheight ctx) x y with
           | Some k =>
               if (c =? 2)%nat && (k <? length bits)%nat
               then Watermark.setLsb (channelAt ctx x y 2) (N.b2n (nth k bits false))
               else channelAt ctx x y c
           | None => channelAt ctx x y c
           end.
Proof.
  intros bits Hrs.
  destruct (applyInvisibleWatermark_pixels ctx metadata Hrs) as (ctx' & E & Hw & Hh & Hpix).
  exists ctx'. split; [exact E|]. split; [exact Hw|]. split; [exact Hh|].
  intros x y c Hx Hy Hc. rewrite (Hpix x y c Hx Hy Hc).
  rewrite textToBinary_bitChar, length_map. fold bits.
  destruct (regionIndex (cwidth ctx) (cheight ctx) x y) as [k|]; [|reflexivity].
  destruct ((c =? 2)%nat && (k <? length bits)%nat) eqn:E2; [|reflexivity].
  apply andb_true_iff in E2 as [_ Hk]. apply Nat.ltb_lt in Hk.
  rewrite (nth_indep _ 0 (bitChar false)) by (now rewrite length_map).
  now rewrite map_nth, parseDigit_bitChar.
Qed.

Lemma setLsb_near b (bit : bool) :
  Byte.to_N (Watermark.setLsb b (N.b2n bit)) / 2 = Byte.to_N b / 2
  /\ Byte.to_N (Watermark.setLsb b (N.b2n bit)) <= Byte.to_N b + 1
  /\ Byte.to_N b <= Byte.to_N (Watermark.setLsb b (N.b2n bit)) + 1.
Proof.
  rewrite setLsb_value. generalize (Byte.to_N b). intros n.
  destruct bit; cbn [N.b2n]; repeat split; lia.
Qed.

Lemma byte_near_refl (b : byte) :
  Byte.to_N b / 2 = Byte.to_N b / 2
  /\ Byte.to_N b <= Byte.to_N b + 1 /\ Byte.to_N b <= Byte.to_N b + 1.
Proof. generalize (Byte.to_N b). intros n. repeat split; lia. Qed.

(** X13. The embedding is imperceptible by construction: red, green and
    alpha bytes are never changed, and a blue byte keeps all its bits but
    the lowest, so it moves by at most 1. The canvas keeps its size. *)
Theorem invisible_watermark_changes_little (ctx : Canvas) (metadata : jsobject) :
  (10 <= cwidth ctx)%nat -> (10 <= cheight ctx)%nat ->
  exists ctx',
    Watermark.applyInvisibleWatermark ctx metadata (cwidth ctx) (cheight ctx) = Ok ctx'
    /\ cwidth ctx' = cwidth ctx /\ cheight ctx' = cheight ctx
    /\ forall x y c, (x < cwidth ctx)%nat -> (y < cheight ctx)%nat -> (c < 4)%nat ->
         (c <> 2%nat -> channelAt ctx' x y c = channelAt ctx x y c)
         /\ Byte.to_N (channelAt ctx' x y c) / 2 = Byte.to_N (channelAt ctx x y c) / 2
         /\ Byte.to_N (channelAt ctx' x y c) <= Byte.to_N (channelAt ctx x y c) + 1
         /\ Byte.to_N (channelAt ctx x y c) <= Byte.to_N (channelAt ctx' x y c) + 1.
Proof.
  intros Hw Hh.
  destruct (applyInvisibleWatermark_blue ctx metadata
              (proj2 (regionSize_positive _ _) (conj Hw Hh)))
    as (ctx' & E & Hw' & Hh' & Hpix).
  exists ctx'. split; [exact E|]. split; [exact Hw'|]. split; [exact Hh'|].
  intros x y c Hx Hy Hc. rewrite (Hpix x y c Hx Hy Hc).
  destruct (regionIndex (cwidth ctx) (cheight ctx) x y) as [k|];
    [|split; [reflexivity | apply byte_near_refl]].
  destruct (Nat.eqb_spec c 2) as [-> | Hc2];
    [|split; [reflexivity | apply byte_near_refl]].
  cbn [andb].
  destruct (k <? length _)%nat; [|split; [reflexivity | apply byte_near_refl]].
  split; [intros Hne; now contradiction Hne | apply setLsb_near].
Qed.

Lemma invisible_watermark_changes_little_witness :
  exists ctx',
    Watermark.applyInvisibleWatermark (Demo.blank 40 40) euroMetadata 40 40 = Ok ctx'
    /\ Byte.to_N (channelAt ctx' 39 39 2) <= Byte.to_N (channelAt (Demo.blank 40 40) 39 39 2) + 1.
Proof.
  destruct (invisible_watermark_changes_little (Demo.blank 40 40) euroMetadata)
    as (ctx' & E & _ & _ & H); [cbn; lia | cbn; lia |].
  exists ctx'. split; [exact E|].
  apply (H 39%nat 39%nat 2%nat); cbn; lia.
Defined.

Lemma flat_map_ext_in {A B} (f g : A -> list B) l :
  (forall a, In a l -> f a = g a) -> flat_map f l = flat_map g l.
Proof.
  induction l as [|a l IH]; [reflexivity|]. intros H. cbn [flat_map].
  rewrite (H a) by now left. rewrite IH; [reflexivity|]. intros b Hb. apply H. now right.
Qed.

Lemma raster_ext g g' w h :
  (forall x y c, (x < w)%nat -> (y < h)%nat -> (c < 4)%nat -> g x y c = g' x y c) ->
  raster g w h = raster g' w h.
Proof.
  intros H. unfold raster. apply flat_map_ext_in. intros y Hy. apply in_seq in Hy.
  apply flat_map_ext_in. intros x Hx. apply in_seq in Hx.
  apply map_ext_in. intros c Hc. apply in_seq in Hc. apply H; lia.
Qed.

(** After [putImageData] the byte array is the raster of its own pixels. *)
Lemma putImageData_raster cv img dx dy :
  let cv' := putImageData cv img dx dy in
  pixels cv' = raster (channelAt cv') (cwidth cv') (cheight cv').
Proof.
  intros cv'. subst cv'. cbn [putImageData pixels cwidth cheight].
  apply raster_ext. intros x y c Hx Hy Hc.
  now rewrite putImageData_pixel.
Qed.

Lemma applyInvisibleWatermark_raster ctx metadata width height ctx' :
  Watermark.applyInvisibleWatermark ctx metadata width height = Ok ctx' ->
  pixels ctx' = raster (channelAt ctx') (cwidth ctx') (cheight ctx').
Proof.
  unfold Watermark.applyInvisibleWatermark.
  destruct (getImageData _ _ _ _ _); [|discriminate].
  intros [= <-]. apply putImageData_raster.
Qed.

Lemma setLsb_idempotent b bit :
  Watermark.setLsb (Watermark.setLsb b (N.b2n bit)) (N.b2n bit)
  = Watermark.setLsb b (N.b2n bit).
Proof.
  apply to_N_inj. rewrite !setLsb_value.
  destruct bit; cbn [N.b2n]; lia.
Qed.

(** X14. Embedding is idempotent: watermarking an already watermarked
    canvas with the same metadata gives back that very canvas. *)
Theorem invisible_watermark_idempotent (ctx : Canvas) (metadata : jsobject) :
  (10 <= cwidth ctx)%nat -> (10 <= cheight ctx)%nat ->
  exists ctx',
    Watermark.applyInvisibleWatermark ctx metadata (cwidth ctx) (cheight ctx) = Ok ctx'
    /\ Watermark.applyInvisibleWatermark ctx' metadata (cwidth ctx') (cheight ctx') = Ok ctx'.
Proof.
  intros Hw Hh.
  pose proof (proj2 (regionSize_positive _ _) (conj Hw Hh)) as Hrs.
  destruct (applyInvisibleWatermark_blue ctx metadata Hrs)
    as (ctx1 & E1 & Hw1 & Hh1 & Hpix1).
  exists ctx1. split; [exact E1|].
  assert (Hrs1 : (0 < Watermark.regionSize (cwidth ctx1) (cheight ctx1))%nat)
    by (now rewrite Hw1, Hh1).
  destruct (applyInvisibleWatermark_blue ctx1 metadata Hrs1)
    as (ctx2 & E2 & Hw2 & Hh2 & Hpix2).
  rewrite E2. f_equal.
  pose proof (applyInvisibleWatermark_raster _ _ _ _ _ E1) as R1.
  pose proof (applyInvisibleWatermark_raster _ _ _ _ _ E2) as R2.
  destruct ctx1 as [cw1 ch1 px1], ctx2 as [cw2 ch2 px2].
  cbn [cwidth cheight pixels] in *. subst cw2 ch2. f_equal.
  rewrite R1, R2. apply raster_ext. intros x y c Hx Hy Hc.
  rewrite (Hpix2 x y c Hx Hy Hc).
  destruct (regionIndex cw1 ch1 x y) as [k|] eqn:Ek; [|reflexivity].
  destruct ((c =? 2)%nat && (k <? length _)%nat) eqn:Ec; [|reflexivity].
  subst cw1 ch1.
  rewrite (Hpix1 x y 2%nat Hx Hy ltac:(lia)), (Hpix1 x y c Hx Hy Hc), Ek, Ec.
  apply andb_true_iff in Ec as [_ Hk]. cbn [Nat.eqb andb]. rewrite Hk.
  apply setLsb_idempotent.
Qed.

Lemma invisible_watermark_idempotent_witness :
  exists ctx',
    Watermark.applyInvisibleWatermark (Demo.blank 40 40) euroMetadata 40 40 = Ok ctx'
    /\ Watermark.applyInvisibleWatermark ctx' euroMetadata (cwidth ctx') (cheight ctx') = Ok ctx'.
Proof.
  apply (invisible_watermark_idempotent (Demo.blank 40 40) euroMetadata); cbn; lia.
Defined.

(** ** [textToBinary] *)

Lemma positiveToString2_bounds p :
  let n := length (positiveToString2 p) in
  2 ^ N.of_nat (n - 1) <= Npos p /\ Npos p < 2 ^ N.of_nat n.
Proof.
  induction p as [q IH | q IH |]; cbn [positiveToString2].
  - cbv zeta in *. rewrite length_app. cbn [length].
    replace (length (positiveToString2 q) + 1 - 1)%nat
      with (S (length (positiveToString2 q) - 1)).
    2:{ destruct q; cbn [positiveToString2 length]; rewrite ?length_app; cbn; lia. }
    replace (length (positiveToString2 q) + 1)%nat with (S (length (positiveToString2 q)))
      by lia.
    rewrite !Nat2N.inj_succ, !N.pow_succ_r'. lia.
  - cbv zeta in *. rewrite length_app. cbn [length].
    replace (length (positiveToString2 q) + 1 - 1)%nat
      with (S (length (positiveToString2 q) - 1)).
    2:{ destruct q; cbn [positiveToString2 length]; rewrite ?length_app; cbn; lia. }
    replace (length (positiveToString2 q) + 1)%nat with (S (length (positiveToString2 q)))
      by lia.
    rewrite !Nat2N.inj_succ, !N.pow_succ_r'. lia.
  - cbn. lia.
Qed.

(** A character takes eight binary characters when it is below 256 and
    more than eight otherwise. *)
Lemma char_binary_length c :
  let n := length (padStart 8 48 (toString2 c)) in
  (8 <= n)%nat /\ (n = 8%nat <-> c < 256).
Proof.
  cbv zeta. unfold padStart. rewrite length_app, repeat_length.
  destruct c as [|p]; [cbn; split; [lia | split; [reflexivity | lia]]|].
  cbn [toString2]. pose proof (positiveToString2_bounds p) as [Hlo Hhi]. cbv zeta in *.
  set (n := length (positiveToString2 p)) in *.
  split; [lia|]. split.
  - intros Hn. assert (Hle : (n <= 8)%nat) by lia.
    eapply N.lt_le_trans; [exact Hhi|].
    change 256 with (2 ^ 8). apply N.pow_le_mono_r; lia.
  - intros Hc. destruct (Nat.le_gt_cases n 8) as [Hle | Hgt]; [lia|].
    assert (2 ^ 8 <= 2 ^ N.of_nat (n - 1)) by (apply N.pow_le_mono_r; lia).
    change (2 ^ 8) with 256 in *. lia.
Qed.

(** X15. [textToBinary] yields only the characters '0' and '1', at least
    eight per character of the text, and exactly eight per character if
    and only if every character is below U+0100. *)
Theorem textToBinary_length (text : jsstring) :
  Forall (fun c => c = 48 \/ c = 49) (Watermark.textToBinary text)
  /\ (8 * length text <= length (Watermark.textToBinary text))%nat
  /\ (length (Watermark.textToBinary text) = (8 * length text)%nat
      <-> forallb (fun c => c <? 256) text = true).
Proof.
  split; [apply textToBinary_binary|].
  unfold Watermark.textToBinary.
  induction text as [|c text [IHle IHiff]]; [cbn; split; [lia | tauto]|].
  cbn [flat_map forallb length]. rewrite length_app.
  pose proof (char_binary_length c) as [H8 Hc]. cbv zeta in *.
  split; [lia|]. rewrite andb_true_iff, N.ltb_lt, <- IHiff, <- Hc. lia.
Qed.

Lemma fromBits8_charBits8 c : c < 256 -> fromBits8 (charBits8 c) = c.
Proof.
  intros Hc.
  assert (H : forallb (fun n => fromBits8 (charBits8 (N.of_nat n)) =? N.of_nat n)
                      (seq 0 256) = true) by (vm_compute; reflexivity).
  rewrite forallb_forall in H. specialize (H (N.to_nat c)).
  rewrite N2Nat.id in H. apply N.eqb_eq, H, in_seq. lia.
Qed.

Lemma payloadBits8_inj t1 t2 :
  forallb (fun c => c <? 256) t1 = true -> forallb (fun c => c <? 256) t2 = true ->
  payloadBits8 t1 = payloadBits8 t2 -> t1 = t2.
Proof.
  revert t2. induction t1 as [|c1 t1 IH]; intros [|c2 t2]; cbn [forallb]; intros H1 H2 E.
  - reflexivity.
  - apply (f_equal length) in E. rewrite !payloadBits8_length in E. cbn in E. lia.
  - apply (f_equal length) in E. rewrite !payloadBits8_length in E. cbn in E. lia.
  - apply andb_true_iff in H1 as [Hc1 H1]. apply andb_true_iff in H2 as [Hc2 H2].
    apply N.ltb_lt in Hc1, Hc2.
    unfold payloadBits8 in E. cbn [flat_map] in E.
    apply app_inj_1 in E as [Ec Et]; [|reflexivity].
    apply (f_equal fromBits8) in Ec. rewrite !fromBits8_charBits8 in Ec by assumption.
    subst c2. f_equal. now apply IH.
Qed.

Lemma map_bitChar_inj l1 l2 : map bitChar l1 = map bitChar l2 -> l1 = l2.
Proof.
  revert l2. induction l1 as [|a l1 IH]; intros [|b l2]; cbn [map]; try discriminate;
    [reflexivity|].
  intros [= Hab E]. f_equal; [now destruct a, b | now apply IH].
Qed.

(** X16. On texts whose characters are all below U+0100, [textToBinary]
    is injective, so the embedded bit string determines the text; beyond
    that range it is not: one 16-bit character can read as two 8-bit
    ones. *)
Theorem textToBinary_decodable :
  (forall t1 t2,
      forallb (fun c => c <? 256) t1 = true -> forallb (fun c => c <? 256) t2 = true ->
      Watermark.textToBinary t1 = Watermark.textToBinary t2 -> t1 = t2)
  /\ (exists t1 t2, t1 <> t2 /\ Watermark.textToBinary t1 = Watermark.textToBinary t2).
Proof.
  split.
  - intros t1 t2 H1 H2 E. rewrite !textToBinary_8 in E by assumption.
    apply payloadBits8_inj; [assumption.. |]. now apply map_bitChar_inj.
  - exists [32833], [128; 65]. split; [discriminate | reflexivity].
Qed.

Lemma textToBinary_decodable_witness :
  forallb (fun c => c <? 256) (js "a@b") = true
  /\ (Watermark.textToBinary (js "a@b") = Watermark.textToBinary (js "a@b") -> js "a@b" = js "a@b").
Proof.
  split; [reflexivity|].
  apply (proj1 textToBinary_decodable (js "a@b") (js "a@b")); reflexivity.
Defined.

(** ** [maskEmail] *)

Lemma split_cons_ne sep c s :
  (c =? sep) = false ->
  exists h t, split sep s = h :: t /\ split sep (c :: s) = (c :: h) :: t.
Proof.
  intros Hc. cbn [split]. rewrite Hc.
  destruct (split sep s) as [|h t] eqn:E.
  - destruct s as [|x s]; cbn [split] in E; [discriminate|].
    destruct (x =? sep); [discriminate|]. destruct (split sep s); discriminate.
  - now exists h, t.
Qed.

Lemma split_nonempty sep s : exists h t, split sep s = h :: t.
Proof.
  destruct s as [|c s]; [now exists [], []|].
  destruct (c =? sep) eqn:Hc.
  - cbn [split]. rewrite Hc. eauto.
  - destruct (split_cons_ne sep c s Hc) as (h & t & _ & E). eauto.
Qed.

(** The last piece of a text that ends with a separator-free tail. *)
Lemma split_last sep x tail :
  forallb (fun c => negb (c =? sep)) tail = true ->
  let parts := split sep (x ++ sep :: tail) in
  (2 <= length parts)%nat /\ nth (length parts - 1) parts [] = tail.
Proof.
  intros Htail. induction x as [|c x [IHlen IHlast]]; cbn [app].
  - cbn [split]. rewrite N.eqb_refl, (split_no_sep sep tail Htail). cbn. split; [lia | reflexivity].
  - destruct (c =? sep) eqn:Hc.
    + cbn [split]. rewrite Hc.
      destruct (split sep (x ++ sep :: tail)) as [|h t] eqn:E; [cbn in IHlen; lia|].
      cbn [length] in *. split; [lia|].
      replace (S (S (length t)) - 1)%nat with (S (S (length t) - 1)) by lia.
      exact IHlast.
    + destruct (split_cons_ne sep c (x ++ sep :: tail) Hc) as (h & t & E & E').
      rewrite E'. rewrite E in IHlen, IHlast. cbn [length] in *.
      split; [lia|].
      destruct t as [|h' t]; [cbn in IHlen; lia|].
      cbn [length] in *.
      replace (S (S (length t)) - 1)%nat with (S (length t)) in * by lia.
      exact IHlast.
Qed.

Lemma split_first sep c x :
  (c =? sep) = false ->
  exists rest, nth 0 (split sep (c :: x)) [] = c :: rest.
Proof.
  intros Hc. destruct (split_cons_ne sep c x Hc) as (h & t & _ & E).
  rewrite E. now exists h.
Qed.

(** The two pieces of [local@domain]. *)
Lemma split_email local domain :
  forallb notAt local = true -> forallb notAt domain = true ->
  split 64 (local ++ js "@" ++ domain) = [local; domain].
Proof.
  intros Hl Hd. cbn [js app]. change (N_of_ascii "@") with 64.
  now rewrite split_app_sep, (split_no_sep 64 domain).
Qed.

(** X17. [maskEmail]: without an '@', or with nothing after it, the result
    is "***". Otherwise the local part shows through its first and last
    character and a run of at most four stars only, and is replaced by "**"
    when it has one or two characters; a dotted domain shows through the
    first character of its first label and its last label only; a domain
    without a dot is shown whole. *)
Theorem maskEmail_reveals :
  (forall email, forallb notAt email = true -> Watermark.maskEmail email = js "***")
  /\ (forall local, forallb notAt local = true ->
        Watermark.maskEmail (local ++ js "@") = js "***")
  /\ (forall local1 local2 domain,
        forallb notAt local1 = true -> forallb notAt local2 = true ->
        forallb notAt domain = true ->
        (length local1 <= 2)%nat -> (length local2 <= 2)%nat ->
        Watermark.maskEmail (local1 ++ js "@" ++ domain)
        = Watermark.maskEmail (local2 ++ js "@" ++ domain))
  /\ (forall a z mid1 mid2 domain,
        forallb notAt (a :: mid1 ++ [z]) = true -> forallb notAt (a :: mid2 ++ [z]) = true ->
        forallb notAt domain = true ->
        Nat.min (length mid1) 4 = Nat.min (length mid2) 4 ->
        (1 <= length mid1)%nat -> (1 <= length mid2)%nat ->
        Watermark.maskEmail ((a :: mid1 ++ [z]) ++ js "@" ++ domain)
        = Watermark.maskEmail ((a :: mid2 ++ [z]) ++ js "@" ++ domain))
  /\ (forall local d x1 x2 tld,
        forallb notAt local = true ->
        forallb notAt (d :: x1 ++ js "." ++ tld) = true ->
        forallb notAt (d :: x2 ++ js "." ++ tld) = true ->
        notDot d = true -> forallb notDot tld = true ->
        Watermark.maskEmail (local ++ js "@" ++ d :: x1 ++ js "." ++ tld)
        = Watermark.maskEmail (local ++ js "@" ++ d :: x2 ++ js "." ++ tld))
  /\ (forall a z mid d x tld,
        forallb notAt (a :: mid ++ [z]) = true ->
        forallb notAt (d :: x ++ js "." ++ tld) = true ->
        notDot d = true -> forallb notDot tld = true ->
        (1 <= length mid)%nat ->
        Watermark.maskEmail ((a :: mid ++ [z]) ++ js "@" ++ d :: x ++ js "." ++ tld)
        = [a] ++ repeat 42 (Nat.min (length mid) 4) ++ [z] ++ js "@"
            ++ [d] ++ js "***" ++ tld)
  /\ (forall local c domain,
        forallb notAt local = true -> forallb notAt (c :: domain) = true ->
        forallb notDot (c :: domain) = true ->
        exists masked,
          Watermark.maskEmail (local ++ js "@" ++ c :: domain)
          = masked ++ js "@" ++ c :: domain).
Proof.
  assert (Hshape : forall local c domain,
    forallb notAt local = true -> forallb notAt (c :: domain) = true ->
    Watermark.maskEmail (local ++ js "@" ++ c :: domain)
    = (if (2 <? length local)%nat
       then charAtOrUndefined local 0 ++ repeat 42 (Nat.min (length local - 2) 4)
              ++ charAtOrUndefined local (length local - 1)
       else js "**")
      ++ js "@"
      ++ (if (1 <? length (split 46 (c :: domain)))%nat
          then charAtOrUndefined (nth 0 (split 46 (c :: domain)) []) 0 ++ js "***"
                 ++ nth (length (split 46 (c :: domain)) - 1) (split 46 (c :: domain)) []
          else c :: domain)).
  { intros local c domain Hl Hd. unfold Watermark.maskEmail.
    rewrite (split_email local (c :: domain) Hl Hd). reflexivity. }
  assert (Hlocal : forall a mid z,
    (1 <= length mid)%nat ->
    (if (2 <? length (a :: mid ++ [z]))%nat
     then charAtOrUndefined (a :: mid ++ [z]) 0
            ++ repeat 42 (Nat.min (length (a :: mid ++ [z]) - 2) 4)
            ++ charAtOrUndefined (a :: mid ++ [z]) (length (a :: mid ++ [z]) - 1)
     else js "**")
    = [a] ++ repeat 42 (Nat.min (length mid) 4) ++ [z]).
  { intros a mid z Hmid. cbn [length]. rewrite length_app. cbn [length].
    replace (2 <? S (length mid + 1))%nat with true by (symmetry; apply Nat.ltb_lt; lia).
    replace (S (length mid + 1) - 2)%nat with (length mid) by lia.
    replace (S (length mid + 1) - 1)%nat with (S (length mid)) by lia.
    unfold charAtOrUndefined.
    change ((a :: mid ++ [z]) !! 0%nat) with (Some a).
    change ((a :: mid ++ [z]) !! S (length mid)) with ((mid ++ [z]) !! length mid).
    now rewrite (list_lookup_middle mid [] z (length mid) eq_refl). }
  assert (Hdomain : forall d x tld,
    notDot d = true -> forallb notDot tld = true ->
    (if (1 <? length (split 46 (d :: x ++ js "." ++ tld)))%nat
     then charAtOrUndefined (nth 0 (split 46 (d :: x ++ js "." ++ tld)) []) 0 ++ js "***"
            ++ nth (length (split 46 (d :: x ++ js "." ++ tld)) - 1)
                   (split 46 (d :: x ++ js "." ++ tld)) []
     else d :: x ++ js "." ++ tld)
    = [d] ++ js "***" ++ tld).
  { intros d x tld Hd Htld.
    destruct (split_last 46 (d :: x) tld Htld) as [Hlen Hlast].
    destruct (split_first 46 d (x ++ js "." ++ tld)) as [rest Hfirst].
    { unfold notDot in Hd. now apply negb_true_iff in Hd. }
    change (d :: x ++ js "." ++ tld) with ((d :: x) ++ 46%N :: tld) in *.
    replace (1 <? length (split 46%N ((d :: x) ++ 46%N :: tld)))%nat with true
      by (symmetry; apply Nat.ltb_lt; lia).
    now rewrite Hfirst, Hlast. }
  split; [|split; [|split; [|split; [|split; [|split]]]]].
  - intros email He. unfold Watermark.maskEmail.
    now rewrite (split_no_sep 64 email He).
  - intros local Hl. unfold Watermark.maskEmail.
    pose proof (split_email local [] Hl eq_refl) as E. rewrite app_nil_r in E.
    now rewrite E.
  - intros local1 local2 [|c domain] H1 H2 Hd L1 L2.
    + unfold Watermark.maskEmail.
      pose proof (split_email local1 [] H1 eq_refl) as E1.
      pose proof (split_email local2 [] H2 eq_refl) as E2.
      now rewrite E1, E2.
    + rewrite !Hshape by assumption.
      replace (2 <? length local1)%nat with false by (symmetry; apply Nat.ltb_ge; lia).
      replace (2 <? length local2)%nat with false by (symmetry; apply Nat.ltb_ge; lia).
      reflexivity.
  - intros a z mid1 mid2 [|c domain] H1 H2 Hd Hmin L1 L2.
    + unfold Watermark.maskEmail.
      pose proof (split_email _ [] H1 eq_refl) as E1.
      pose proof (split_email _ [] H2 eq_refl) as E2.
      now rewrite E1, E2.
    + rewrite !Hshape by assumption. rewrite !Hlocal by assumption.
      now rewrite Hmin.
  - intros local d x1 x2 tld Hl H1 H2 Hd Htld.
    rewrite !Hshape by assumption. now rewrite !Hdomain by assumption.
  - intros a z mid d x tld Hl Hdm Hd Htld Hmid.
    rewrite Hshape by assumption. rewrite Hlocal by assumption.
    rewrite Hdomain by assumption. now rewrite <- !app_assoc.
  - intros local c domain Hl Hd Hdot.
    rewrite Hshape by assumption. change (fun c => negb (c =? 46)) with notDot in *.
    rewrite (split_no_sep 46 (c :: domain) Hdot). cbn [length Nat.ltb Nat.leb].
    eexists. reflexivity.
Qed.

Lemma maskEmail_reveals_witness :
  Watermark.maskEmail (js "jane.doe@example.com") = js "j****e@e***com".
Proof.
  apply (proj1 (proj2 (proj2 (proj2 (proj2 (proj2 maskEmail_reveals)))))
           106 101 (js "ane.do") 101 (js "xample") (js "com"));
    (reflexivity || (cbn; lia)).
Defined.

(** ** [processDocument] on images, and [processDocumentFull] *)

Lemma dataUrlToBlob_toDataURL (P : Platform) canvas mime :
  mime = js "image/png" \/ mime = js "image/jpeg" ->
  Watermark.dataUrlToBlob (Watermark.toDataURL P canvas mime)
  = Ok (if (cwidth canvas =? 0)%nat || (cheight canvas =? 0)%nat
        then {| blobBytes := []; blobType := js "application/octet-stream" |}
        else {| blobBytes := encodeImage P mime canvas; blobType := mime |}).
Proof.
  intros Hmime. unfold Watermark.toDataURL.
  destruct ((cwidth canvas =? 0)%nat || (cheight canvas =? 0)%nat); [reflexivity|].
  rewrite dataUrlToBlob_encoded by (now destruct Hmime as [-> | ->]).
  now destruct Hmime as [-> | ->].
Qed.

(** X18. For a JPEG/PNG file that decodes to at least 10 x 10 pixels, with
    the 2D context available, [processDocument] succeeds. The blob holds
    the encoding of the canvas after the invisible and, unless switched off,
    the visible watermark, as image/png for a PNG and as image/jpeg for
    every other image type (image/jpg included); the result carries the
    file's name, the hash of the metadata, the session id as watermark id
    and the timestamp. *)
Theorem processDocument_image_success (P : Platform) (file : File)
    (options : Watermark.ProcessDocumentOptions)
    (w w1 w2 w3 w4 : world P) timestamp sessionId image :
  Watermark.includes Watermark.imageTypes (fileType file) = true ->
  newDate P w = (timestamp, w1) ->
  randomUUID P w1 = (sessionId, w2) ->
  loadImage P file w2 = (Some image, w3) ->
  getContext2d P w3 = (true, w4) ->
  (10 <= cwidth image)%nat -> (10 <= cheight image)%nat ->
  let watermarkOptions := watermarkOptionsOf options timestamp sessionId in
  let metadata := Watermark.imageMetadata P watermarkOptions in
  let mimeType := if bool_decide (fileType file = js "image/png")
                  then js "image/png" else js "image/jpeg" in
  exists ctx1,
    Watermark.applyInvisibleWatermark image metadata (cwidth image) (cheight image) = Ok ctx1
    /\ let final :=
         if default true (Watermark.addVisibleWatermark options)
         then applyVisibleWatermark P
                (defaultWatermarkText P (Watermark.userEmail options) timestamp)
                (QArith_base.Qmake 15 100) ctx1 w4
         else (ctx1, w4) in
       Watermark.processDocument P file options w
       = (Ok {| ProcessedDocument.blob :=
                  if (cwidth final.1 =? 0)%nat || (cheight final.1 =? 0)%nat
                  then {| blobBytes := []; blobType := js "application/octet-stream" |}
                  else {| blobBytes := encodeImage P mimeType final.1;
                          blobType := mimeType |};
                ProcessedDocument.originalName := fileName file;
                ProcessedDocument.mimeType := mimeType;
                ProcessedDocument.metadataHash :=
                  Some (Watermark.generateMetadataHash P metadata);
                ProcessedDocument.watermarkId := Some sessionId;
                ProcessedDocument.processedAt := toISOString P timestamp |},
          final.2).
Proof.
  intros Himg Hdate Huuid Hload Hctx Hw Hh watermarkOptions metadata mimeType.
  destruct (applyInvisibleWatermark_pixels image metadata
              (proj2 (regionSize_positive _ _) (conj Hw Hh))) as (ctx1 & E & _).
  exists ctx1. split; [exact E|]. cbv zeta.
  assert (Hmime : mimeType = js "image/png" \/ mimeType = js "image/jpeg")
    by (subst mimeType; case_bool_decide; auto).
  unfold Watermark.processDocument, bind, call.
  rewrite Hdate, Huuid, (imageType_not_pdf _ Himg), Himg.
  fold (watermarkOptionsOf options timestamp sessionId). fold watermarkOptions.
  unfold Watermark.applyWatermark, bind, call, liftResult, ret.
  rewrite Himg. cbn [negb]. rewrite Hload, Hctx. cbn [negb].
  fold metadata. rewrite E.
  cbn [watermarkOptions watermarkOptionsOf Watermark.visibleWatermark Watermark.opacity
       Watermark.watermarkText Watermark.email Watermark.timestamp default from_option id].
  fold (defaultWatermarkText P (Watermark.userEmail options) timestamp).
  fold mimeType.
  destruct (default true (Watermark.addVisibleWatermark options)).
  - destruct (applyVisibleWatermark P _ _ ctx1 w4) as [ctx2 w5].
    cbn [fst snd WatermarkedDocument.data].
    rewrite (dataUrlToBlob_toDataURL P ctx2 mimeType Hmime). reflexivity.
  - cbn [fst snd WatermarkedDocument.data].
    rewrite (dataUrlToBlob_toDataURL P ctx1 mimeType Hmime). reflexivity.
Qed.

Lemma processDocument_image_success_witness :
  exists doc,
    Watermark.processDocument (Demo.platform true) Demo.jpeg Demo.options 0%nat
    = (Ok doc, 2%nat)
    /\ ProcessedDocument.mimeType doc = js "image/jpeg"
    /\ ProcessedDocument.originalName doc = js "licence.jpg".
Proof.
  destruct (processDocument_image_success (Demo.platform true) Demo.jpeg Demo.options
              0%nat 1%nat 2%nat 2%nat 2%nat 1700000000000
              (js "3f2b8c1e-5d4a-4c6b-9e7f-0a1b2c3d4e5f") (Demo.blank 40 40)
              eq_refl eq_refl eq_refl eq_refl eq_refl ltac:(cbn; lia) ltac:(cbn; lia))
    as (ctx1 & _ & E).
  eexists. split; [exact E|]. split; reflexivity.
Defined.

(** X19. [processDocument] succeeds exactly when [processDocumentFull]
    does on the options it builds, and otherwise throws the same error from
    the same world: converting the data URL to a blob never fails on what
    the watermarking functions return. The blob is the decoded data URL. *)
Theorem processDocument_agrees_with_full (P : Platform) (file : File)
    (options : Watermark.ProcessDocumentOptions) (w : world P) :
  let timestamp := (newDate P w).1 in
  let sessionId := (randomUUID P (newDate P w).2).1 in
  let w2 := (randomUUID P (newDate P w).2).2 in
  match processDocumentFull P file (watermarkOptionsOf options timestamp sessionId) w2 with
  | (Throw e, w') => Watermark.processDocument P file options w = (Throw e, w')
  | (Ok r, w') =>
      exists doc,
        Watermark.processDocument P file options w = (Ok doc, w')
        /\ ProcessedDocument.originalName doc = fileName file
        /\ ProcessedDocument.watermarkId doc = Some sessionId
        /\ match r with
           | inl wd =>
               Watermark.dataUrlToBlob (WatermarkedDocument.data wd)
               = Ok (ProcessedDocument.blob doc)
               /\ ProcessedDocument.mimeType doc = WatermarkedDocument.mimeType wd
               /\ ProcessedDocument.metadataHash doc
                  = Some (WatermarkedDocument.metadataHash wd)
           | inr pkg =>
               Watermark.dataUrlToBlob (Watermark.pdfData pkg)
               = Ok (ProcessedDocument.blob doc)
               /\ ProcessedDocument.mimeType doc = js "application/pdf"
               /\ ProcessedDocument.metadataHash doc = None
           end
  end.
Proof.
  cbv zeta. unfold processDocumentFull, Watermark.processDocument, bind, call.
  destruct (newDate P w) as [ts w1]. cbn [fst snd].
  destruct (randomUUID P w1) as [sid w2]. cbn [fst snd].
  fold (watermarkOptionsOf options ts sid).
  set (wo := watermarkOptionsOf options ts sid).
  case_bool_decide as Hpdf.
  - unfold Watermark.applyPdfWatermark, Watermark.arrayBufferToBase64, bind, liftResult, ret.
    rewrite btoa_of_bytes. cbn [Watermark.pdfData].
    pose proof (dataUrlToBlob_encoded (js "application/pdf") (fileBytes file) eq_refl) as Hb.
    change (js "data:" ++ js "application/pdf" ++ js ";base64,"
              ++ Base64.encode (map Byte.to_N (fileBytes file)))
      with (js "data:application/pdf;base64,"
              ++ Base64.encode (map Byte.to_N (fileBytes file))) in Hb.
    rewrite Hb. eexists. split; [reflexivity|]. cbn. now rewrite Hpdf.
  - destruct (Watermark.includes Watermark.imageTypes (fileType file)); [|reflexivity].
    destruct (Watermark.applyWatermark P file wo w2) as [[wd|e] w'] eqn:E; [|reflexivity].
    unfold ret, liftResult.
    destruct (applyWatermark_returns P file wo w2 w' wd E) as (canvas & D & M & _ & Hname).
    destruct (toDataURL_parses P canvas _ M) as (blob & B).
    rewrite D, B. eexists. split; [reflexivity|]. cbn. auto.
Qed.

(** ** The payload of [handleDocumentsSubmit] *)





(** ** Step navigation *)

(** X21. [goToNextStep] and [goToPreviousStep] move one place along
    STEP_ORDER and clear the error; at the last step, respectively the
    first, they change nothing. Going forward and then back returns to the
    step one started from, except from the last step. *)
Theorem navigation_stays_in_order (st : Navigation.State) :
  let next := Navigation.goToNextStep st in
  let prev := Navigation.goToPreviousStep st in
  Navigation.currentStepIndex next = Z.min 5 (Navigation.currentStepIndex st + 1)
  /\ Navigation.currentStepIndex prev = Z.max 0 (Navigation.currentStepIndex st - 1)
  /\ (next = st <-> Navigation.currentStep st = Navigation.Success)
  /\ (prev = st <-> Navigation.currentStep st = Navigation.EmailName)
  /\ (Navigation.currentStep st <> Navigation.Success ->
      Navigation.error next = None
      /\ Navigation.currentStep (Navigation.goToPreviousStep next)
         = Navigation.currentStep st)
  /\ (Navigation.currentStep st <> Navigation.EmailName ->
      Navigation.error prev = None
      /\ Navigation.currentStep (Navigation.goToNextStep prev)
         = Navigation.currentStep st).
Proof.
  destruct st as [[] e]; vm_compute;
    repeat split; try reflexivity; try discriminate; try congruence;
    try (intros H; now inversion H); try (intros H; now contradiction H).
Qed.

Lemma navigation_stays_in_order_witness :
  Navigation.goToPreviousStep
    (Navigation.goToNextStep
       {| Navigation.currentStep := Navigation.Password; Navigation.error := None |})
  = {| Navigation.currentStep := Navigation.Password; Navigation.error := None |}.
Proof.
  pose proof (navigation_stays_in_order
                {| Navigation.currentStep := Navigation.Password;
                   Navigation.error := None |}) as (_ & _ & _ & _ & H & _).
  destruct (H ltac:(discriminate)) as [_ Hstep].
  cbn [Navigation.currentStep] in Hstep.
  destruct (Navigation.goToPreviousStep _) as [step err] eqn:E.
  cbn [Navigation.currentStep] in Hstep. subst step.
  vm_compute in E. now injection E as <-.
Defined.

(** ** The rate limiter *)

(** X22. After [checkRateLimit] has let a call through at time [t1], every
    call for the same action less than [limitMs] later is refused and
    leaves the map as it is, so refused calls do not prolong the wait; the
    first call at or after [t1 + limitMs] is let through and restarts the
    window. *)
Theorem checkRateLimit_window (action : jsstring) (limitMs t1 t2 : Z)
    (rateLimitMap : gmap jsstring Z) :
  t1 <> 0%Z ->
  (RateLimit.checkRateLimit action (Some limitMs) t1 rateLimitMap).1 = true ->
  let m1 := (RateLimit.checkRateLimit action (Some limitMs) t1 rateLimitMap).2 in
  m1 = <[action := t1]> rateLimitMap
  /\ ((t2 - t1 < limitMs)%Z ->
      RateLimit.checkRateLimit action (Some limitMs) t2 m1 = (false, m1))
  /\ ((limitMs <= t2 - t1)%Z ->
      RateLimit.checkRateLimit action (Some limitMs) t2 m1 = (true, <[action := t2]> m1)).
Proof.
  intros Ht1 Hok. cbv zeta.
  assert (Hm1 : (RateLimit.checkRateLimit action (Some limitMs) t1 rateLimitMap).2
                = <[action := t1]> rateLimitMap).
  { revert Hok. unfold RateLimit.checkRateLimit.
    destruct (rateLimitMap !! action) as [last|]; [|reflexivity].
    destruct (_ && _); [discriminate | reflexivity]. }
  rewrite Hm1. split; [reflexivity|].
  unfold RateLimit.checkRateLimit. rewrite lookup_insert_eq.
  cbn [default from_option id].
  destruct (Z.eqb_spec t1 0) as [|_]; [contradiction|]. cbn [negb andb].
  split; intros Ht.
  - now rewrite (proj2 (Z.ltb_lt _ _) Ht).
  - now rewrite (proj2 (Z.ltb_ge _ _) Ht).
Qed.

Lemma checkRateLimit_window_witness :
  exists m1,
    m1 = <[js "otp-send" := 1700000000000%Z]> (∅ : gmap jsstring Z)
    /\ RateLimit.checkRateLimit (js "otp-send") (Some 60000%Z) 1700000030000%Z m1
       = (false, m1).
Proof.
  assert (Hok : (RateLimit.checkRateLimit (js "otp-send") (Some 60000%Z) 1700000000000%Z
                   ∅).1 = true)
    by (unfold RateLimit.checkRateLimit; now rewrite lookup_empty).
  destruct (checkRateLimit_window (js "otp-send") 60000 1700000000000 1700000030000 ∅
              ltac:(lia) Hok) as (Hm1 & Hdeny & _).
  eexists. split; [exact Hm1|]. apply Hdeny. lia.
Defined.

(** X23. Actions are limited separately: a call for one action never
    changes what is recorded for another, nor the answer the other gets;
    an action never seen is let through; and a refused call leaves the map
    unchanged. *)
Theorem checkRateLimit_per_action (action other : jsstring) (limitMs limitMs' : option Z)
    (now now' : Z) (rateLimitMap : gmap jsstring Z) :
  let after := (RateLimit.checkRateLimit action limitMs now rateLimitMap).2 in
  (action <> other ->
   after !! other = rateLimitMap !! other
   /\ (RateLimit.checkRateLimit other limitMs' now' after).1
      = (RateLimit.checkRateLimit other limitMs' now' rateLimitMap).1)
  /\ (rateLimitMap !! action = None ->
      RateLimit.checkRateLimit action limitMs now rateLimitMap
      = (true, <[action := now]> rateLimitMap))
  /\ ((RateLimit.checkRateLimit action limitMs now rateLimitMap).1 = false ->
      after = rateLimitMap).
Proof.
  cbv zeta. split; [|split].
  - intros Hne.
    assert (Hother : (RateLimit.checkRateLimit action limitMs now rateLimitMap).2 !! other
                     = rateLimitMap !! other).
    { unfold RateLimit.checkRateLimit.
      destruct (rateLimitMap !! action) as [last|];
        [destruct (_ && _)|]; cbn [snd]; try reflexivity;
        now apply lookup_insert_ne. }
    split; [exact Hother|].
    unfold RateLimit.checkRateLimit at 1 3. rewrite Hother.
    destruct (rateLimitMap !! other) as [last|]; [|reflexivity].
    now destruct (_ && _).
  - intros Hnone. unfold RateLimit.checkRateLimit. now rewrite Hnone.
  - unfold RateLimit.checkRateLimit.
    destruct (rateLimitMap !! action) as [last|]; [|discriminate].
    destruct (_ && _); [reflexivity | discriminate].
Qed.

Lemma checkRateLimit_per_action_witness :
  (RateLimit.checkRateLimit (js "otp-send") None 5%Z ∅).2 !! js "register" = None.
Proof.
  rewrite (proj1 (proj1 (checkRateLimit_per_action (js "otp-send") (js "register")
                           None None 5 5 ∅) ltac:(discriminate))).
  apply lookup_empty.
Defined.

(** X24. [getRateLimitRemaining] and [checkRateLimit] agree: the remaining
    time is 0 exactly when a call at that instant would be let through,
    and otherwise it is the wait in milliseconds rounded up to whole
    seconds. *)
Theorem getRateLimitRemaining_agrees (action : jsstring) (limitMs : option Z) (now : Z)
    (rateLimitMap : gmap jsstring Z) :
  let remaining := RateLimit.getRateLimitRemaining action limitMs now rateLimitMap in
  (0 <= remaining)%Z
  /\ (remaining = 0%Z
      <-> (RateLimit.checkRateLimit action limitMs now rateLimitMap).1 = true)
  /\ (forall lastCall,
        rateLimitMap !! action = Some lastCall -> lastCall <> 0%Z ->
        (now - lastCall < default 60000 limitMs)%Z ->
        let wait := (default 60000 limitMs - (now - lastCall))%Z in
        (1000 * (remaining - 1) < wait <= 1000 * remaining)%Z).
Proof.
  cbv zeta. unfold RateLimit.getRateLimitRemaining, RateLimit.checkRateLimit,
    RateLimit.ceilThousandth.
  set (limit := default 60000%Z limitMs).
  destruct (rateLimitMap !! action) as [last|].
  2:{ split; [lia|]. split; [tauto | discriminate]. }
  destruct (Z.eqb_spec last 0) as [-> | Hlast].
  { cbn [negb andb fst]. split; [lia|]. split; [tauto|]. intros ? [= <-]. congruence. }
  cbn [negb andb].
  split; [lia|]. split.
  - destruct (Z.ltb_spec (now - last) limit) as [Hlt | Hge]; cbn [fst].
    + split; [|discriminate]. intros H. exfalso. lia.
    + split; [reflexivity|]. intros _. lia.
  - intros lastCall [= <-] _ Hlt. lia.
Qed.

Lemma getRateLimitRemaining_agrees_witness :
  RateLimit.getRateLimitRemaining (js "otp-send") None 1700000030500%Z
    (<[js "otp-send" := 1700000000000%Z]> ∅) = 30%Z.
Proof.
  pose proof (proj2 (proj2 (getRateLimitRemaining_agrees (js "otp-send") None
                              1700000030500 (<[js "otp-send" := 1700000000000%Z]> ∅)))
                1700000000000%Z (lookup_insert_eq _ _ _) ltac:(lia) ltac:(cbn; lia)) as H.
  cbn [default from_option id] in H. cbv zeta in H. lia.
Defined.

(** ** [validateDocument] and the upload step *)

Lemma finish_consistent (errors : list jsstring) :
  bool_decide (length errors = 0%nat) = true <-> errors = [].
Proof.
  rewrite bool_decide_eq_true. destruct errors; cbn; split; congruence.
Qed.

(** X25. Whenever [validateDocument] returns, [isValid] holds exactly when
    the list of errors is empty, and there are at most three errors. A
    missing or empty file is valid exactly when the document is not
    required. *)
Theorem validateDocument_consistent (P : Platform) (file : option File)
    (options : Validation.DocumentOptions) :
  (forall r,
      Validation.validateDocument P file options = Validation.Returns r ->
      (Validation.isValid r = true <-> Validation.errors r = [])
      /\ (length (Validation.errors r) <= 3)%nat)
  /\ ((file = None \/ exists f, file = Some f /\ fileBytes f = []) ->
      exists r,
        Validation.validateDocument P file options = Validation.Returns r
        /\ Validation.isValid r = negb (default true (Validation.required options))).
Proof.
  split.
  - intros r. unfold Validation.validateDocument.
    set (missing := Validation.Returns _).
    assert (Hmissing : missing = Validation.Returns r ->
              (Validation.isValid r = true <-> Validation.errors r = [])
              /\ (length (Validation.errors r) <= 3)%nat).
    { subst missing. intros [= <-]. cbn.
      destruct (default true (Validation.required options)); cbn; split;
        (lia || (split; congruence)). }
    destruct file as [f|]; [|exact Hmissing].
    destruct (N.of_nat (length (fileBytes f)) =? 0); [exact Hmissing|].
    set (errors1 := if negb _ then _ else []).
    set (errors2 := if (_ <? _) then _ else errors1).
    assert (L2 : (length errors2 <= 2)%nat).
    { subst errors2 errors1.
      destruct (Watermark.includes _ (fileType f)), (N.ltb _ _);
        rewrite ?length_app; cbn [negb length]; lia. }
    assert (Hfin : forall errors, (length errors <= 3)%nat ->
              Validation.Returns {| Validation.isValid := bool_decide (length errors = 0%nat);
                                    Validation.errors := errors |} = Validation.Returns r ->
              (Validation.isValid r = true <-> Validation.errors r = [])
              /\ (length (Validation.errors r) <= 3)%nat).
    { intros errors Hlen [= <-]. cbn. split; [apply finish_consistent | exact Hlen]. }
    assert (L3 : (length errors2 <= 3)%nat) by (clear -L2; lia).
    assert (L3' : (length (errors2 ++ [js "File extension does not match file type"]) <= 3)%nat)
      by (rewrite length_app; cbn [length]; clear -L2; lia).
    destruct (toLowerCase P _) as [|c ext]; [exact (Hfin errors2 L3)|].
    destruct (Validation.validExtensions (fileType f)) as [exts| |];
      [|discriminate|exact (Hfin errors2 L3)].
    destruct (Watermark.includes exts (c :: ext)); cbn [negb];
      [exact (Hfin errors2 L3) | exact (Hfin _ L3')].
  - intros [-> | (f & -> & Hempty)]; unfold Validation.validateDocument.
    + eexists. split; reflexivity.
    + rewrite Hempty. cbn [length N.of_nat N.eqb]. eexists. split; reflexivity.
Qed.

Lemma validateDocument_consistent_witness :
  exists r,
    Validation.validateDocument (Demo.platform true) (Some emptyText)
      {| Validation.required := Some false; Validation.maxSizeMB := None;
         Validation.allowedTypes := None |} = Validation.Returns r
    /\ Validation.isValid r = true.
Proof.
  destruct (proj2 (validateDocument_consistent (Demo.platform true) (Some emptyText)
                     {| Validation.required := Some false; Validation.maxSizeMB := None;
                        Validation.allowedTypes := None |}))
    as (r & E & Hv).
  - right. now exists emptyText.
  - exists r. split; [exact E | exact Hv].
Defined.

Lemma includes_defaultAllowed t :
  Watermark.includes Validation.defaultAllowedTypes t = true ->
  t = js "application/pdf" \/ Watermark.includes Watermark.imageTypes t = true.
Proof.
  unfold Watermark.includes, Validation.defaultAllowedTypes, Watermark.imageTypes.
  cbn [existsb]. repeat case_bool_decide; subst; cbn; auto; discriminate.
Qed.

Lemma validateDocument_valid_nonempty (P : Platform) f options r :
  fileBytes f <> [] ->
  Validation.validateDocument P (Some f) options = Validation.Returns r ->
  Validation.isValid r = true ->
  Watermark.includes (default Validation.defaultAllowedTypes (Validation.allowedTypes options))
                     (fileType f) = true
  /\ N.of_nat (length (fileBytes f))
     <= default 10 (Validation.maxSizeMB options) * 1024 * 1024.
Proof.
  intros Hne. unfold Validation.validateDocument.
  destruct (N.eqb_spec (N.of_nat (length (fileBytes f))) 0) as [E0 | _].
  { destruct (fileBytes f); [congruence | cbn in E0; lia]. }
  set (allowed := default Validation.defaultAllowedTypes (Validation.allowedTypes options)).
  set (maxMB := default 10 (Validation.maxSizeMB options)).
  set (errors1 := if negb _ then _ else []).
  set (errors2 := if (_ <? _) then _ else errors1).
  assert (Hfin : forall errors extra,
            errors = errors2 ++ extra ->
            Validation.Returns {| Validation.isValid := bool_decide (length errors = 0%nat);
                                  Validation.errors := errors |} = Validation.Returns r ->
            Validation.isValid r = true ->
            Watermark.includes allowed (fileType f) = true
            /\ N.of_nat (length (fileBytes f)) <= maxMB * 1024 * 1024).
  { intros errors extra -> [= <-]. cbn [Validation.isValid]. intros Hv.
    apply finish_consistent in Hv. apply app_eq_nil in Hv as [Hv _].
    subst errors2 errors1.
    destruct (Watermark.includes allowed (fileType f)); cbn [negb] in Hv.
    - split; [reflexivity|].
      destruct (N.ltb_spec (maxMB * 1024 * 1024) (N.of_nat (length (fileBytes f))));
        [discriminate | assumption].
    - destruct (_ <? _); discriminate. }
  destruct (toLowerCase P _) as [|c ext];
    [apply (Hfin errors2 []); now rewrite app_nil_r|].
  destruct (Validation.validExtensions (fileType f)) as [exts| |];
    [|discriminate|apply (Hfin errors2 []); now rewrite app_nil_r].
  destruct (Watermark.includes exts (c :: ext)); cbn [negb];
    [apply (Hfin errors2 []); now rewrite app_nil_r
    | apply (Hfin _ [js "File extension does not match file type"]); reflexivity].
Qed.

(** X26. A non-empty file that [validateDocument] accepts under the
    default options is at most 10 MB and of a type [processDocument]
    routes: it will not be rejected there as unsupported. The extension is
    checked for image/jpeg, image/png and application/pdf only: a non-empty
    image/jpg file of at most 10 MB is accepted under any name. *)
Theorem validateDocument_accepts_supported (P : Platform) :
  (forall f required r,
      fileBytes f <> [] ->
      Validation.validateDocument P (Some f)
        {| Validation.required := required; Validation.maxSizeMB := None;
           Validation.allowedTypes := None |} = Validation.Returns r ->
      Validation.isValid r = true ->
      N.of_nat (length (fileBytes f)) <= 10485760
      /\ (fileType f = js "application/pdf"
          \/ Watermark.includes Watermark.imageTypes (fileType f) = true)
      /\ forall options w,
           (Watermark.processDocument P f options w).1
           <> Throw (JsError (js "Unsupported file type: " ++ fileType f)))
  /\ (forall f required,
        fileBytes f <> [] -> fileType f = js "image/jpg" ->
        N.of_nat (length (fileBytes f)) <= 10485760 ->
        Validation.validateDocument P (Some f)
          {| Validation.required := required; Validation.maxSizeMB := None;
             Validation.allowedTypes := None |}
        = Validation.Returns {| Validation.isValid := true; Validation.errors := [] |}).
Proof.
  split.
  - intros f required r Hne E Hv.
    destruct (validateDocument_valid_nonempty P f _ r Hne E Hv) as [Htype Hsize].
    cbn [Validation.allowedTypes Validation.maxSizeMB default from_option id] in *.
    apply includes_defaultAllowed in Htype.
    split; [exact Hsize|]. split; [exact Htype|].
    intros options w. unfold Watermark.processDocument, bind, call.
    destruct (newDate P w) as [ts w1]. destruct (randomUUID P w1) as [sid w2].
    destruct Htype as [Hpdf | Himg].
    + rewrite bool_decide_eq_true_2 by exact Hpdf.
      unfold Watermark.applyPdfWatermark, Watermark.arrayBufferToBase64,
        bind, liftResult, ret.
      rewrite btoa_of_bytes. cbn [Watermark.pdfData].
      pose proof (dataUrlToBlob_encoded (js "application/pdf") (fileBytes f) eq_refl) as Hb.
      change (js "data:" ++ js "application/pdf" ++ js ";base64,"
                ++ Base64.encode (map Byte.to_N (fileBytes f)))
        with (js "data:application/pdf;base64,"
                ++ Base64.encode (map Byte.to_N (fileBytes f))) in Hb.
      rewrite Hb. discriminate.
    + rewrite (imageType_not_pdf _ Himg), Himg.
      unfold Watermark.applyWatermark, bind, call, liftResult, ret, throw.
      rewrite Himg. cbn [negb].
      destruct (loadImage P f w2) as [[image|] w3]; [|discriminate].
      destruct (getContext2d P w3) as [[|] w4]; [|discriminate]. cbn [negb].
      destruct (Watermark.applyInvisibleWatermark image _ _ _) as [ctx1|e] eqn:Einv.
      * destruct (default true _);
          repeat match goal with
                 | |- context [applyVisibleWatermark P ?t ?o ?c ?w] =>
                     destruct (applyVisibleWatermark P t o c w)
                 end;
          cbn [WatermarkedDocument.data];
          match goal with
          | |- context [Watermark.dataUrlToBlob ?u] => destruct (Watermark.dataUrlToBlob u) eqn:Eb
          end; cbn [fst]; try discriminate;
          apply dataUrlToBlob_throws in Eb; subst; discriminate.
      * cbn [fst]. unfold Watermark.applyInvisibleWatermark in Einv.
        destruct (getImageData _ _ _ _ _) eqn:Eg; [discriminate|].
        unfold getImageData in Eg. destruct (_ || _); [|discriminate].
        injection Eg as <-. injection Einv as <-. discriminate.
  - intros f required Hne Htype Hsize. unfold Validation.validateDocument.
    destruct (N.eqb_spec (N.of_nat (length (fileBytes f))) 0) as [E0 | _].
    { destruct (fileBytes f); [congruence | cbn in E0; lia]. }
    cbn [Validation.allowedTypes Validation.maxSizeMB default from_option id].
    rewrite Htype.
    change (Watermark.includes Validation.defaultAllowedTypes (js "image/jpg")) with true.
    change (Validation.validExtensions (js "image/jpg")) with Validation.Missing.
    cbn [negb].
    replace (10 * 1024 * 1024 <? N.of_nat (length (fileBytes f))) with false
      by (symmetry; apply N.ltb_ge; lia).
    now destruct (toLowerCase P _).
Qed.

Lemma validateDocument_accepts_supported_witness :
  Validation.validateDocument (Demo.platform true) (Some mislabelled)
    {| Validation.required := Some true; Validation.maxSizeMB := None;
       Validation.allowedTypes := None |}
  = Validation.Returns {| Validation.isValid := true; Validation.errors := [] |}.
Proof.
  apply (proj2 (validateDocument_accepts_supported (Demo.platform true)) mislabelled);
    [discriminate | reflexivity | cbn; lia].
Defined.

(** X27. A file that [handleFileSelect] stores is put in the slot it was
    selected for and leaves the other slots as they were; it is either a
    non-empty file of at most 10 MB whose type is application/pdf or one
    of the image types, or an empty file in the optional work patent
    slot. *)
Theorem handleFileSelect_stores_vetted (P : Platform) (docType : Upload.DocKey)
    (f : File) (documents d : Registration.Documents) :
  Upload.handleFileSelect P docType (Some f) documents = Upload.Stored d ->
  Upload.slot docType d = Some f
  /\ (forall other, other <> docType -> Upload.slot other d = Upload.slot other documents)
  /\ ((fileBytes f = [] /\ docType = Upload.WorkPatent)
      \/ (fileBytes f <> []
          /\ N.of_nat (length (fileBytes f)) <= 10485760
          /\ (fileType f = js "application/pdf"
              \/ Watermark.includes Watermark.imageTypes (fileType f) = true))).
Proof.
  unfold Upload.handleFileSelect.
  destruct (Validation.validateDocument P (Some f) _) as [r|] eqn:E; [|discriminate].
  destruct (Validation.isValid r) eqn:Hv; cbn [negb]; [|discriminate].
  intros [= <-]. split; [now destruct docType|].
  split; [intros other Hother; destruct docType, other; try reflexivity; congruence|].
  destruct (fileBytes f) as [|b bs] eqn:Hbytes.
  - left. split; [reflexivity|].
    unfold Validation.validateDocument in E. rewrite Hbytes in E.
    cbn [length N.of_nat N.eqb] in E. injection E as <-.
    cbn [Validation.isValid Validation.required default from_option id] in Hv.
    destruct docType; cbn in Hv; congruence.
  - right. split; [discriminate|]. rewrite <- Hbytes.
    assert (Hne : fileBytes f <> []) by (rewrite Hbytes; discriminate).
    destruct (validateDocument_valid_nonempty P f _ r Hne E Hv) as [Htype Hsize].
    cbn [Validation.allowedTypes Validation.maxSizeMB default from_option id] in *.
    split; [exact Hsize|].
    apply includes_defaultAllowed. exact Htype.
Qed.

Lemma handleFileSelect_stores_vetted_witness :
  Upload.slot Upload.WorkPatent
    (Upload.handleDocumentChange Upload.WorkPatent (Some emptyText) noDocuments)
  = Some emptyText
  /\ fileBytes emptyText = [].
Proof.
  destruct (handleFileSelect_stores_vetted (Demo.platform true) Upload.WorkPatent emptyText
              noDocuments
              (Upload.handleDocumentChange Upload.WorkPatent (Some emptyText) noDocuments)
              eq_refl) as (Hslot & _ & _).
  split; [exact Hslot | reflexivity].
Defined.

(** X28. For a non-empty file whose name ends in a non-empty extension and
    whose type is the name of a member of [Object.prototype],
    [validateDocument] does not return a list of errors: the lookup
    [validExtensions[file.type]] finds the inherited member, and the call
    of its missing [includes] throws, whatever the options.
    [handleFileSelect] then stops without storing or refusing the file. *)
Theorem validateDocument_throws_on_prototype_type (P : Platform) (f : File)
    (options : Validation.DocumentOptions) :
  fileBytes f <> [] ->
  toLowerCase P (nth (length (split 46 (fileName f)) - 1) (split 46 (fileName f)) []) <> [] ->
  Watermark.includes Validation.objectPrototypeKeys (fileType f) = true ->
  Validation.validateDocument P (Some f) options = Validation.ThrowsTypeError
  /\ forall docType documents,
       Upload.handleFileSelect P docType (Some f) documents = Upload.Crashed.
Proof.
  intros Hne Hext Hkey.
  assert (H : forall options,
             Validation.validateDocument P (Some f) options = Validation.ThrowsTypeError).
  { intros o. unfold Validation.validateDocument.
    destruct (N.eqb_spec (N.of_nat (length (fileBytes f))) 0) as [E0 | _].
    { destruct (fileBytes f); [congruence | cbn in E0; lia]. }
    destruct (toLowerCase P _) as [|c ext]; [congruence|].
    assert (Hlookup : Validation.validExtensions (fileType f) = Validation.Inherited).
    { unfold Validation.validExtensions.
      repeat case_bool_decide;
        try match goal with
            | E : fileType f = _ |- _ => rewrite E in Hkey; vm_compute in Hkey; discriminate
            end.
      now rewrite Hkey. }
    now rewrite Hlookup. }
  split; [apply H|].
  intros docType documents. unfold Upload.handleFileSelect. now rewrite H.
Qed.

Lemma validateDocument_throws_on_prototype_type_witness :
  Upload.handleFileSelect (Demo.platform true) Upload.DrivingLicense (Some prototypeTyped)
    noDocuments = Upload.Crashed.
Proof.
  apply (validateDocument_throws_on_prototype_type (Demo.platform true) prototypeTyped
           {| Validation.required := None; Validation.maxSizeMB := None;
              Validation.allowedTypes := None |});
    [discriminate | vm_compute; discriminate | reflexivity].
Defined.
